(** * Kyson: the desert scene's joystick, movement, spin and selection logic

    A shallow embedding of [src/main.js]: the touch joystick handlers, the
    per-frame [animate] function (joystick movement, spin, hover ray cast)
    and the tap/click selection handlers, with the properties the
    specification states about them (Parts I and II); then the rest of the
    script (object creation and registry, textures, the page as a whole)
    and the torus point generator of the data-cloud script, with the
    properties the code itself shows (Parts III and IV).

    Conventions of the embedding.
    - A JavaScript number is a real number: arithmetic is exact and every
      value is finite (no NaN, no infinities, no rounding).  [Math.sqrt],
      [Math.cos], [Math.sin] are the functions of the real-number library and
      [Math.atan2] is defined below from [atan] by quadrant.
    - A JavaScript object reference (a mesh) is a natural number [ObjRef]; the
      meshes live in a total store [ObjRef -> Mesh].  [null] is [None].
    - The rendering library is outside the repository; its vector operations
      are transcribed from their documented behaviour (module [Vector3]), and
      the results of its queries (camera world direction, ray cast, clock
      delta, orbit controls) arrive as inputs of a frame. *)

From Stdlib Require Import Reals Lra Lia ZArith List String Bool Permutation.
From Stdlib Require Import Ascii Decimal DecimalNat DecimalString.
Import ListNotations.

Open Scope R_scope.

(* ================================================================== *)
(** * Part I: definitions                                              *)
(* ================================================================== *)

(** ** JavaScript's [Math] functions over the reals *)

Module JSMath.

(** [Math.atan2(y, x)]: the angle of the point [(x, y)], in [(-PI, PI]],
    [0] at the origin. *)
Definition atan2 (y x : R) : R :=
  if Rlt_dec 0 x then atan (y / x)
  else if Rlt_dec x 0 then
    (if Rle_dec 0 y then atan (y / x) + PI else atan (y / x) - PI)
  else if Rlt_dec 0 y then PI / 2
  else if Rlt_dec y 0 then - (PI / 2)
  else 0.

End JSMath.

(** ** The rendering library's three-component vector *)

Module Vector3.

Record t : Type := mk { x : R; y : R; z : R }.

(** [v.length()] *)
Definition length (v : t) : R :=
  sqrt (x v * x v + y v * y v + z v * z v).

(** [v.divideScalar(s)] *)
Definition divideScalar (v : t) (s : R) : t :=
  mk (x v / s) (y v / s) (z v / s).

(** [v.normalize()] is [v.divideScalar(v.length() || 1)]: the zero vector
    is left as it is. *)
Definition normalize (v : t) : t :=
  divideScalar v (if Req_dec_T (length v) 0 then 1 else length v).

(** [target.crossVectors(a, b)] *)
Definition crossVectors (a b : t) : t :=
  mk (y a * z b - z a * y b)
     (z a * x b - x a * z b)
     (x a * y b - y a * x b).

(** [p.addScaledVector(v, s)] *)
Definition addScaledVector (p v : t) (s : R) : t :=
  mk (x p + x v * s) (y p + y v * s) (z p + z v * s).

(** Assignment to one component, [v.y = c]. *)
Definition set_y (v : t) (c : R) : t := mk (x v) c (z v).

End Vector3.

(** ** The joystick *)

Module Joystick.

(** A plain [{ x, y }] object. *)
Record Point : Type := mkPoint { px : R; py : R }.

Definition origin : Point := mkPoint 0 0.

(** An entry of [event.changedTouches]. *)
Record Touch : Type := mkTouch {
  identifier : Z;
  clientX : R;
  clientY : R
}.

(** What [joystickBase.getBoundingClientRect()] returns. *)
Record DOMRect : Type := mkRect {
  left : R; top : R; width : R; height : R
}.

(** The joystick's variables.  [stickTransform] is the pair of lengths of
    [joystickStick.style.transform = translate(xpx, ypx)], [None] until the
    script first writes it. *)
Record State : Type := mkState {
  joystickPointerId : option Z;
  joystickCenter : Point;
  joystickPos : Point;
  joystickVector : Point;
  stickTransform : option Point
}.

Definition init : State :=
  mkState None origin origin origin None.

(** How a handler ends: by returning, or by throwing a [TypeError] (reading
    a property of [undefined]).  Either way the variables keep what was
    written up to that point. *)
Inductive Completion : Type := Returned | ThrewTypeError.

Section Handlers.

(** [joystickBase.offsetWidth], an integer number of pixels read once
    when the script starts. *)
Variable offsetWidth : Z.

Definition joystickRadius : R := IZR offsetWidth / 2.

(** [setJoystickPosition(x, y)], lines 268-276. *)
Definition setJoystickPosition (rect : DOMRect) (st : State) (x y : R)
  : State :=
  mkState None
          (mkPoint (left rect + width rect / 2)
                   (top rect + height rect / 2))
          (mkPoint x y)
          (joystickVector st)
          (Some (mkPoint x y)).

(** The [touchstart] listener, lines 278-283. *)
Definition touchstart (rect : DOMRect) (changedTouches : list Touch)
           (st : State) : Completion * State :=
  match joystickPointerId st with
  | Some _ => (Returned, st)
  | None =>
      match changedTouches with
      | [] => (ThrewTypeError, st)
      | touch :: _ =>
          let st1 := mkState (Some (identifier touch))
                             (joystickCenter st) (joystickPos st)
                             (joystickVector st) (stickTransform st) in
          (Returned, setJoystickPosition rect st1 0 0)
      end
  end.

(** The body of the [touchmove] loop for the matching touch,
    lines 289-310. *)
Definition touchmove_body (touch : Touch) (st : State) : State :=
  let deltaX := clientX touch - px (joystickCenter st) in
  let deltaY := clientY touch - py (joystickCenter st) in
  let distance := sqrt (deltaX * deltaX + deltaY * deltaY) in
  let maxDistance := joystickRadius in
  let clamped :=
    if Rlt_dec maxDistance distance then
      let angle := JSMath.atan2 deltaY deltaX in
      mkPoint (cos angle * maxDistance) (sin angle * maxDistance)
    else mkPoint deltaX deltaY in
  mkState (joystickPointerId st)
          (joystickCenter st)
          clamped
          (mkPoint (px clamped / maxDistance) (py clamped / maxDistance))
          (Some clamped).

(** The [for] loop of the [touchmove] listener: the first changed touch
    whose identifier is the active one is handled, then the listener
    returns. *)
Fixpoint touchmove_loop (id : Z) (changedTouches : list Touch)
         (st : State) : State :=
  match changedTouches with
  | [] => st
  | touch :: rest =>
      if Z.eqb (identifier touch) id then touchmove_body touch st
      else touchmove_loop id rest st
  end.

(** The [touchmove] listener, lines 285-313. *)
Definition touchmove (changedTouches : list Touch) (st : State) : State :=
  match joystickPointerId st with
  | None => st
  | Some id => touchmove_loop id changedTouches st
  end.

(** What [touchend] and [touchcancel] write. *)
Definition released (st : State) : State :=
  mkState None (joystickCenter st) origin origin (Some origin).

(** [touch.identifier === joystickPointerId]: a number is never strictly
    equal to [null]. *)
Definition is_active (st : State) (touch : Touch) : bool :=
  match joystickPointerId st with
  | None => false
  | Some id => Z.eqb (identifier touch) id
  end.

(** The [touchend] listener, lines 315-327. *)
Fixpoint touchend (changedTouches : list Touch) (st : State) : State :=
  match changedTouches with
  | [] => st
  | touch :: rest =>
      if is_active st touch then released st else touchend rest st
  end.

(** The [touchcancel] listener, lines 329-336. *)
Definition touchcancel (st : State) : State := released st.

(** The events the joystick base receives. *)
Inductive Event : Type :=
| TouchStart (rect : DOMRect) (changedTouches : list Touch)
| TouchMove (changedTouches : list Touch)
| TouchEnd (changedTouches : list Touch)
| TouchCancel.

Definition dispatch (st : State) (ev : Event) : State :=
  match ev with
  | TouchStart rect touches => snd (touchstart rect touches st)
  | TouchMove touches => touchmove touches st
  | TouchEnd touches => touchend touches st
  | TouchCancel => touchcancel st
  end.

(** The variables after a sequence of events, from the initial ones. *)
Definition run (evs : list Event) : State := fold_left dispatch evs init.

End Handlers.

(** The Euclidean length of an offset. *)
Definition magnitude (p : Point) : R := sqrt (px p * px p + py p * py p).

End Joystick.

(** ** The scene: camera, meshes and their store *)

(** A reference to a mesh object. *)
Definition ObjRef : Type := nat.

(** [a === b] on two variables holding a mesh reference or [null]. *)
Definition same_ref (a b : option ObjRef) : bool :=
  match a, b with
  | Some m, Some n => Nat.eqb m n
  | None, None => true
  | _, _ => false
  end.

Module Camera.

(** The camera fields the movement code reads and writes.  [direction] is
    what [camera.getWorldDirection(target)] copies into [target]: the
    world-space viewing direction given by the camera's orientation. *)
Record t : Type := mk {
  position : Vector3.t;
  up : Vector3.t;
  direction : Vector3.t
}.

Definition getWorldDirection (camera : t) : Vector3.t := direction camera.

End Camera.

Module Material.

(** [emissive] is the colour as its hex value, [map] a texture handle. *)
Record t : Type := mk {
  emissive : Z;
  emissiveIntensity : R;
  map : option nat
}.

(** The colour [emissive.set('turquoise')] stores. *)
Definition turquoise : Z := 0x40E0D0%Z.

(** [material.emissive.set(0x000000); material.emissiveIntensity = 0] *)
Definition cleared (m : t) : t := mk 0%Z 0 (map m).

(** [material.emissive.set('turquoise'); material.emissiveIntensity = 0.6] *)
Definition hover (m : t) : t := mk turquoise (6 / 10) (map m).

(** [material.emissive.set('turquoise'); material.emissiveIntensity = 1] *)
Definition selected (m : t) : t := mk turquoise 1 (map m).

End Material.

Module Mesh.

(** A mesh owns its material: [createPrimitive] builds a new one for every
    mesh. *)
Record t : Type := mk {
  position : Vector3.t;
  rotation : Vector3.t;
  material : Material.t
}.

Definition with_material (f : Material.t -> Material.t) (m : t) : t :=
  mk (position m) (rotation m) (f (material m)).

(** [obj.rotation.y += d] *)
Definition rotate_y (d : R) (m : t) : t :=
  mk (position m)
     (Vector3.set_y (rotation m) (Vector3.y (rotation m) + d))
     (material m).

End Mesh.

(** The meshes by reference. *)
Definition Store : Type := ObjRef -> Mesh.t.

(** In-place modification of the mesh behind one reference. *)
Definition modify (f : Mesh.t -> Mesh.t) (o : ObjRef) (meshes : Store)
  : Store :=
  fun o' => if Nat.eqb o' o then f (meshes o) else meshes o'.

(** ** A JavaScript [Set] of mesh references

    The elements in insertion order, each once. *)

Module RefSet.

Definition t : Type := list ObjRef.

Definition has (s : t) (o : ObjRef) : bool := existsb (Nat.eqb o) s.

Definition add (s : t) (o : ObjRef) : t := if has s o then s else s ++ [o].

Definition delete (s : t) (o : ObjRef) : t :=
  filter (fun o' => negb (Nat.eqb o' o)) s.

(** [s.forEach(f)] with [f] a change of the store. *)
Definition forEach (s : t) (f : ObjRef -> Store -> Store) (meshes : Store)
  : Store :=
  fold_left (fun ms o => f o ms) s meshes.

End RefSet.

(** ** The application *)

Module App.

(** An entry [{ obj, name }] of the [objects] array. *)
Record Entry : Type := mkEntry { obj : ObjRef; name : string }.

Record State : Type := mkState {
  camera : Camera.t;
  joystick : Joystick.State;
  objects : list Entry;
  spinningObjects : RefSet.t;
  meshes : Store;
  hoveredObject : option ObjRef;
  selectedObject : option ObjRef
}.

(** *** The spin toggle button, lines 202-216 *)

Definition toggle (s : RefSet.t) (o : ObjRef) : RefSet.t :=
  if RefSet.has s o then RefSet.delete s o else RefSet.add s o.

(** [objName] is [spinObjectsSelect.value]; the empty string is falsy. *)
Definition toggleSpin (objName : string) (objects : list Entry)
           (spinning : RefSet.t) : RefSet.t :=
  if String.eqb objName EmptyString then spinning
  else
    match find (fun o => String.eqb (name o) objName) objects with
    | None => spinning
    | Some objData => toggle spinning (obj objData)
    end.

Definition toggleSpinBtn_click (objName : string) (st : State) : State :=
  mkState (camera st) (joystick st) (objects st)
          (toggleSpin objName (objects st) (spinningObjects st))
          (meshes st) (hoveredObject st) (selectedObject st).

(** *** The frame: [animate], lines 341-400 *)

Definition moveSpeed : R := 15 / 100.

(** The height the camera is kept above. *)
Definition floorHeight : R := 12 / 10.

(** The body of the joystick movement block, lines 349-365. *)
Definition moveCamera (v : Joystick.Point) (camera : Camera.t) : Camera.t :=
  let forward := Camera.getWorldDirection camera in
  let forward := Vector3.set_y forward 0 in
  let forward := Vector3.normalize forward in
  let right :=
    Vector3.normalize (Vector3.crossVectors (Camera.up camera) forward) in
  let position :=
    Vector3.addScaledVector (Camera.position camera) forward
                            (- Joystick.py v * moveSpeed) in
  let position :=
    Vector3.addScaledVector position right (Joystick.px v * moveSpeed) in
  let position :=
    if Rlt_dec (Vector3.y position) floorHeight
    then Vector3.set_y position floorHeight
    else position in
  Camera.mk position (Camera.up camera) (Camera.direction camera).

(** [joystickVector.x !== 0 || joystickVector.y !== 0] *)
Definition nonzero (v : Joystick.Point) : bool :=
  if Req_dec_T (Joystick.px v) 0
  then (if Req_dec_T (Joystick.py v) 0 then false else true)
  else true.

(** The joystick movement block, lines 347-366. *)
Definition joystickMovement (v : Joystick.Point) (camera : Camera.t)
  : Camera.t :=
  if nonzero v then moveCamera v camera else camera.

(** The spin block, lines 369-372. *)
Definition spin (delta : R) (spinning : RefSet.t) (meshes : Store) : Store :=
  RefSet.forEach spinning
    (fun o => modify (Mesh.rotate_y (delta * (2 / 10))) o) meshes.

(** Lines 381-384 and 392-395: the hovered object loses its highlight
    unless it is the selected one. *)
Definition unhover (hovered selected : option ObjRef) (meshes : Store)
  : Store :=
  match hovered with
  | Some h =>
      if same_ref hovered selected then meshes
      else modify (Mesh.with_material Material.cleared) h meshes
  | None => meshes
  end.

(** The hover block, lines 378-397: the new store and hovered object.
    [intersects] are the objects of the ray cast's hits, nearest first. *)
Definition hover (intersects : list ObjRef)
           (hovered selected : option ObjRef) (meshes : Store)
  : Store * option ObjRef :=
  match intersects with
  | intersected :: _ =>
      if same_ref hovered (Some intersected) then (meshes, hovered)
      else
        let meshes := unhover hovered selected meshes in
        let hovered := Some intersected in
        if same_ref hovered selected then (meshes, hovered)
        else
          (modify (Mesh.with_material Material.hover) intersected meshes,
           hovered)
  | [] => (unhover hovered selected meshes, None)
  end.

(** What one frame takes from outside the script. *)
Record Frame : Type := mkFrame {
  controls_update : Camera.t -> Camera.t;
  delta : R;
  intersects : list ObjRef
}.

Definition animate (f : Frame) (st : State) : State :=
  let camera := controls_update f (camera st) in
  let camera :=
    joystickMovement (Joystick.joystickVector (joystick st)) camera in
  let meshes := spin (delta f) (spinningObjects st) (meshes st) in
  let '(meshes, hovered) :=
    hover (intersects f) (hoveredObject st) (selectedObject st) meshes in
  mkState camera (joystick st) (objects st) (spinningObjects st)
          meshes hovered (selectedObject st).

(** *** Selection on tap and click, lines 413-445 *)

(** The [window] [touchend] listener, lines 413-428. *)
Definition window_touchend (st : State) : State :=
  match hoveredObject st with
  | Some h =>
      if same_ref (hoveredObject st) (selectedObject st) then st
      else
        let meshes :=
          match selectedObject st with
          | Some s =>
              modify (Mesh.with_material Material.cleared) s (meshes st)
          | None => meshes st
          end in
        mkState (camera st) (joystick st) (objects st) (spinningObjects st)
                (modify (Mesh.with_material Material.selected) h meshes)
                (hoveredObject st) (Some h)
  | None =>
      match selectedObject st with
      | Some s =>
          mkState (camera st) (joystick st) (objects st)
                  (spinningObjects st)
                  (modify (Mesh.with_material Material.cleared) s
                          (meshes st))
                  (hoveredObject st) None
      | None => st
      end
  end.

(** The [window] [click] listener, lines 431-445. *)
Definition window_click (st : State) : State :=
  match hoveredObject st with
  | Some h =>
      if same_ref (hoveredObject st) (selectedObject st) then st
      else
        let meshes :=
          match selectedObject st with
          | Some s =>
              modify (Mesh.with_material Material.cleared) s (meshes st)
          | None => meshes st
          end in
        mkState (camera st) (joystick st) (objects st) (spinningObjects st)
                (modify (Mesh.with_material Material.selected) h meshes)
                (hoveredObject st) (Some h)
  | None =>
      match selectedObject st with
      | Some s =>
          mkState (camera st) (joystick st) (objects st)
                  (spinningObjects st)
                  (modify (Mesh.with_material Material.cleared) s
                          (meshes st))
                  (hoveredObject st) None
      | None => st
      end
  end.

(** The frames and discrete selection events of an execution. *)
Inductive Event : Type :=
| Tick (f : Frame)
| Tap
| Click.

Definition step (st : State) (ev : Event) : State :=
  match ev with
  | Tick f => animate f st
  | Tap => window_touchend st
  | Click => window_click st
  end.

Definition run (evs : list Event) (st : State) : State :=
  fold_left step evs st.

(** When the script has just started nothing is hovered or selected;
    the rest is whatever the scene set-up produced. *)
Definition initial (st : State) : Prop :=
  hoveredObject st = None /\ selectedObject st = None.

End App.

(* ================================================================== *)
(** * Part II: properties                                              *)
(* ================================================================== *)

(** ** Facts about [Math.atan2] *)

Module JSMathFacts.

Lemma hypot_pos (x y : R) : x <> 0 \/ y <> 0 -> 0 < sqrt (x * x + y * y).
Proof. intros H. apply sqrt_lt_R0. destruct H; nra. Qed.

Lemma hypot_sqr (x y : R) :
  sqrt (x * x + y * y) * sqrt (x * x + y * y) = x * x + y * y.
Proof. apply sqrt_sqrt. nra. Qed.

(** [sqrt (1 + t²)] for the slope [t = y / x]. *)
Lemma sqrt_slope (x y : R) :
  x <> 0 ->
  sqrt (1 + (y / x)²) = sqrt (x * x + y * y) / Rabs x.
Proof.
  intros Hx.
  assert (Ha : 0 < Rabs x) by (apply Rabs_pos_lt; exact Hx).
  assert (Hd : 0 < sqrt (x * x + y * y)) by (apply hypot_pos; left; exact Hx).
  apply sqrt_lem_1.
  - unfold Rsqr. nra.
  - apply Rlt_le, Rdiv_lt_0_compat; assumption.
  - unfold Rsqr.
    assert (Hxx : Rabs x * Rabs x = x * x).
    { unfold Rabs. destruct (Rcase_abs x); ring. }
    transitivity ((sqrt (x * x + y * y) * sqrt (x * x + y * y))
                  / (Rabs x * Rabs x)).
    + field. lra.
    + rewrite hypot_sqr, Hxx. field. exact Hx.
Qed.

Lemma cos_atan2 (y x : R) :
  x <> 0 \/ y <> 0 ->
  cos (JSMath.atan2 y x) = x / sqrt (x * x + y * y).
Proof.
  intros H. pose proof (hypot_pos x y H) as Hd.
  unfold JSMath.atan2.
  destruct (Rlt_dec 0 x) as [Hx | Hx].
  - rewrite cos_atan, sqrt_slope by lra. rewrite Rabs_right by lra.
    field. split; lra.
  - destruct (Rlt_dec x 0) as [Hx' | Hx'].
    + assert (E : cos (atan (y / x)) = - x / sqrt (x * x + y * y)).
      { rewrite cos_atan, sqrt_slope by lra. rewrite Rabs_left by lra.
        field. split; lra. }
      destruct (Rle_dec 0 y).
      * rewrite neg_cos, E. field. lra.
      * rewrite cos_minus, cos_PI, sin_PI, E. field. lra.
    + assert (x = 0) by lra. subst x.
      destruct (Rlt_dec 0 y).
      * rewrite cos_PI2. field. lra.
      * destruct (Rlt_dec y 0).
        -- rewrite cos_neg, cos_PI2. field. lra.
        -- exfalso. destruct H; lra.
Qed.

Lemma sin_atan2 (y x : R) :
  x <> 0 \/ y <> 0 ->
  sin (JSMath.atan2 y x) = y / sqrt (x * x + y * y).
Proof.
  intros H. pose proof (hypot_pos x y H) as Hd.
  unfold JSMath.atan2.
  destruct (Rlt_dec 0 x) as [Hx | Hx].
  - rewrite sin_atan, sqrt_slope by lra. rewrite Rabs_right by lra.
    field. split; lra.
  - destruct (Rlt_dec x 0) as [Hx' | Hx'].
    + assert (E : sin (atan (y / x)) = - y / sqrt (x * x + y * y)).
      { rewrite sin_atan, sqrt_slope by lra. rewrite Rabs_left by lra.
        field. split; lra. }
      destruct (Rle_dec 0 y).
      * rewrite neg_sin, E. field. lra.
      * rewrite sin_minus, cos_PI, sin_PI, E. field. lra.
    + assert (x = 0) by lra. subst x.
      assert (Hs : sqrt (0 * 0 + y * y) = Rabs y).
      { replace (0 * 0 + y * y) with (y²) by (unfold Rsqr; ring).
        apply sqrt_Rsqr_abs. }
      rewrite Hs.
      destruct (Rlt_dec 0 y).
      * rewrite sin_PI2, Rabs_right by lra. field. lra.
      * destruct (Rlt_dec y 0).
        -- rewrite sin_neg, sin_PI2, Rabs_left by lra. field. lra.
        -- exfalso. destruct H; lra.
Qed.

(** The angle of a point does not change when the point is scaled by a
    positive factor. *)
Lemma atan2_scale (k y x : R) :
  0 < k -> JSMath.atan2 (k * y) (k * x) = JSMath.atan2 y x.
Proof.
  intros Hk. unfold JSMath.atan2.
  assert (Hq : x <> 0 -> k * y / (k * x) = y / x).
  { intros Hx. field. split; lra. }
  destruct (Rlt_dec 0 x), (Rlt_dec 0 (k * x)); try nra;
    [ rewrite Hq by lra; reflexivity | ].
  destruct (Rlt_dec x 0), (Rlt_dec (k * x) 0); try nra.
  - rewrite Hq by lra.
    destruct (Rle_dec 0 y), (Rle_dec 0 (k * y)); try nra; reflexivity.
  - destruct (Rlt_dec 0 y), (Rlt_dec 0 (k * y)); try nra; try reflexivity.
    destruct (Rlt_dec y 0), (Rlt_dec (k * y) 0); try nra; reflexivity.
Qed.

End JSMathFacts.

(** ** The joystick handlers *)

Module JoystickFacts.
Import Joystick.

Section Handlers.

Variable offsetWidth : Z.

Local Abbreviation maxDistance := (joystickRadius offsetWidth).

Lemma radius_pos : (0 < offsetWidth)%Z -> 0 < maxDistance.
Proof.
  intros H. unfold joystickRadius. apply IZR_lt in H. lra.
Qed.

(** The loop of [touchmove] handles the first changed touch that carries
    the active identifier, if there is one. *)
Lemma touchmove_loop_find (id : Z) (touches : list Touch) (st : State) :
  touchmove_loop offsetWidth id touches st =
  match find (fun t => Z.eqb (identifier t) id) touches with
  | Some touch => touchmove_body offsetWidth touch st
  | None => st
  end.
Proof.
  induction touches as [| t rest IH]; simpl.
  - reflexivity.
  - destruct (Z.eqb (identifier t) id); [reflexivity | exact IH].
Qed.

(** Beyond the radius the stored offset is the raw one scaled by
    [maxDistance / distance]. *)
Lemma touchmove_body_clamped (touch : Touch) (st : State) :
  0 < maxDistance ->
  let deltaX := clientX touch - px (joystickCenter st) in
  let deltaY := clientY touch - py (joystickCenter st) in
  let distance := sqrt (deltaX * deltaX + deltaY * deltaY) in
  maxDistance < distance ->
  joystickPos (touchmove_body offsetWidth touch st) =
  mkPoint (maxDistance / distance * deltaX) (maxDistance / distance * deltaY).
Proof.
  intros HR deltaX deltaY distance Hfar.
  unfold touchmove_body. fold deltaX deltaY. fold distance.
  destruct (Rlt_dec maxDistance distance) as [_ | Hn]; [| contradiction].
  simpl.
  assert (Hnz : deltaX <> 0 \/ deltaY <> 0).
  { destruct (Req_dec deltaX 0) as [Ex | Ex]; [| left; exact Ex].
    destruct (Req_dec deltaY 0) as [Ey | Ey]; [| right; exact Ey].
    exfalso. unfold distance in Hfar. rewrite Ex, Ey in Hfar.
    replace (0 * 0 + 0 * 0) with 0 in Hfar by ring.
    rewrite sqrt_0 in Hfar. lra. }
  rewrite JSMathFacts.cos_atan2, JSMathFacts.sin_atan2 by exact Hnz.
  fold distance. f_equal; field; unfold distance; 
    pose proof (JSMathFacts.hypot_pos deltaX deltaY Hnz); lra.
Qed.

Lemma magnitude_origin : magnitude origin = 0.
Proof.
  unfold magnitude, origin; simpl.
  replace (0 * 0 + 0 * 0) with 0 by ring. apply sqrt_0.
Qed.

(** [sqrt 2] to three decimals. *)
Lemma sqrt2_bounds : 1414 / 1000 < sqrt 2 < 1415 / 1000.
Proof.
  assert (H0 : 0 <= sqrt 2) by apply sqrt_pos.
  assert (H2 : sqrt 2 * sqrt 2 = 2) by (apply sqrt_sqrt; lra).
  split; nra.
Qed.

(** C1. A move of the active pointer whose raw offset (touch coordinates
    minus the joystick center) is longer than the radius stores an offset
    of length exactly the radius and of the same angle as the raw offset,
    and stores as direction vector that offset divided by the radius,
    component by component.  A raw offset of length twice the radius at
    45 degrees gives a direction vector within 0.001 of (0.707, 0.707).
    The radius is positive: the joystick base has a positive width. *)
Theorem touchmove_polar_clamp
        (st : State) (id : Z) (touches : list Touch) (touch : Touch) :
  (0 < offsetWidth)%Z ->
  joystickPointerId st = Some id ->
  find (fun t => Z.eqb (identifier t) id) touches = Some touch ->
  let deltaX := clientX touch - px (joystickCenter st) in
  let deltaY := clientY touch - py (joystickCenter st) in
  maxDistance < sqrt (deltaX * deltaX + deltaY * deltaY) ->
  let st' := touchmove offsetWidth touches st in
  magnitude (joystickPos st') = maxDistance /\
  JSMath.atan2 (py (joystickPos st')) (px (joystickPos st')) =
    JSMath.atan2 deltaY deltaX /\
  joystickVector st' =
    mkPoint (px (joystickPos st') / maxDistance)
            (py (joystickPos st') / maxDistance) /\
  (deltaX = 2 * maxDistance * cos (PI / 4) ->
   deltaY = 2 * maxDistance * sin (PI / 4) ->
   Rabs (px (joystickVector st') - 707 / 1000) < 1 / 1000 /\
   Rabs (py (joystickVector st') - 707 / 1000) < 1 / 1000).
Proof.
  intros Hw Hid Hfind deltaX deltaY Hfar st'.
  pose proof (radius_pos Hw) as HR.
  assert (Est : st' = touchmove_body offsetWidth touch st).
  { unfold st', touchmove. rewrite Hid, touchmove_loop_find, Hfind.
    reflexivity. }
  pose proof (touchmove_body_clamped touch st HR Hfar) as Epos.
  rewrite <- Est in Epos. fold deltaX deltaY in Epos.
  set (distance := sqrt (deltaX * deltaX + deltaY * deltaY)) in *.
  assert (Hd : 0 < distance) by lra.
  assert (Hdd : distance * distance = deltaX * deltaX + deltaY * deltaY).
  { apply JSMathFacts.hypot_sqr. }
  assert (Hk : 0 < maxDistance / distance).
  { apply Rdiv_lt_0_compat; assumption. }
  assert (Evec : joystickVector st' =
                 mkPoint (px (joystickPos st') / maxDistance)
                         (py (joystickPos st') / maxDistance)).
  { rewrite Est. reflexivity. }
  split; [| split; [| split]].
  - rewrite Epos. unfold magnitude; simpl.
    apply sqrt_lem_1; [nra | lra |].
    transitivity
      (maxDistance / distance * (maxDistance / distance)
       * (deltaX * deltaX + deltaY * deltaY)); [| ring].
    rewrite <- Hdd. field. lra.
  - rewrite Epos; simpl. apply JSMathFacts.atan2_scale. exact Hk.
  - exact Evec.
  - intros Ex Ey. rewrite Evec, Epos; simpl.
    assert (E2R : distance = 2 * maxDistance).
    { unfold distance. apply sqrt_lem_1; [nra | lra |].
      rewrite Ex, Ey.
      pose proof (sin2_cos2 (PI / 4)) as Hsc. unfold Rsqr in Hsc. nra. }
    rewrite Ex, Ey, cos_PI4, sin_PI4, E2R.
    pose proof sqrt2_bounds as [Hlo Hhi].
    replace (maxDistance / (2 * maxDistance)
             * (2 * maxDistance * (1 / sqrt 2)) / maxDistance)
      with (/ sqrt 2) by (field; lra).
    assert (Hinv : sqrt 2 * / sqrt 2 = 1) by (apply Rinv_r; lra).
    split; apply Rabs_def1; nra.
Qed.

(** C8. A touch-start that arrives while a pointer is active returns at
    once: pointer id, center, stored offset, direction vector and stick
    transform are those of before. *)
Theorem touchstart_ignored_while_active
        (rect : DOMRect) (touches : list Touch) (st : State) :
  joystickPointerId st <> None ->
  touchstart rect touches st = (Returned, st).
Proof.
  intros Hactive. unfold touchstart.
  destruct (joystickPointerId st) as [id |]; [reflexivity | contradiction].
Qed.

(** *** The direction vector over executions *)

(** No pointer is active and the direction vector is zero. *)
Definition idle (st : State) : Prop :=
  joystickPointerId st = None /\ joystickVector st = origin.

Lemma touchend_idle (touches : list Touch) (st : State) :
  idle st -> idle (touchend touches st).
Proof.
  intros Hidle. induction touches as [| t rest IH]; simpl.
  - exact Hidle.
  - destruct (is_active st t); [split; reflexivity | exact IH].
Qed.

Lemma dispatch_idle (st : State) (ev : Event) :
  idle st -> idle (dispatch offsetWidth st ev).
Proof.
  intros [Hid Hvec]. destruct ev as [rect touches | touches | touches |];
    simpl.
  - unfold touchstart. rewrite Hid.
    destruct touches as [| touch rest]; simpl.
    + split; assumption.
    + split; [reflexivity | exact Hvec].
  - unfold touchmove. rewrite Hid. split; assumption.
  - apply touchend_idle. split; assumption.
  - split; reflexivity.
Qed.

Lemma fold_dispatch_idle (evs : list Event) (st : State) :
  idle st -> idle (fold_left (dispatch offsetWidth) evs st).
Proof.
  revert st. induction evs as [| ev evs IH]; intros st Hidle; simpl.
  - exact Hidle.
  - apply IH, dispatch_idle, Hidle.
Qed.

(** X1. After any sequence of joystick events no pointer is recorded as
    active and the direction vector is zero: [touchstart] stores the
    identifier and then calls [setJoystickPosition], which sets
    [joystickPointerId] back to [null], so that [touchmove] and
    [touchend] never find the active pointer. *)
Theorem pointer_never_active (evs : list Event) :
  joystickPointerId (run offsetWidth evs) = None /\
  joystickVector (run offsetWidth evs) = origin.
Proof.
  apply fold_dispatch_idle. split; reflexivity.
Qed.

(** C2. After every sequence of touch-start, touch-move, touch-end and
    touch-cancel events the direction vector has magnitude at most 1,
    and it is exactly (0, 0) whenever no pointer is active. *)
Theorem direction_vector_bounded (evs : list Event) :
  magnitude (joystickVector (run offsetWidth evs)) <= 1 /\
  (joystickPointerId (run offsetWidth evs) = None ->
   joystickVector (run offsetWidth evs) = origin).
Proof.
  destruct (fold_dispatch_idle evs init (conj eq_refl eq_refl))
    as [_ Hvec].
  fold (run offsetWidth evs) in Hvec.
  split.
  - rewrite Hvec, magnitude_origin. lra.
  - intros _. exact Hvec.
Qed.

(** The same bound as an invariant of the handlers themselves, from any
    values of the variables (also with a pointer active). *)
Definition bounded (st : State) : Prop :=
  magnitude (joystickVector st) <= 1 /\
  (joystickPointerId st = None -> joystickVector st = origin).

Lemma released_bounded (st : State) : bounded (released st).
Proof.
  split; simpl.
  - rewrite magnitude_origin. lra.
  - reflexivity.
Qed.

Lemma touchmove_body_magnitude (touch : Touch) (st : State) :
  0 < maxDistance ->
  magnitude (joystickVector (touchmove_body offsetWidth touch st)) <= 1.
Proof.
  intros HR.
  set (deltaX := clientX touch - px (joystickCenter st)).
  set (deltaY := clientY touch - py (joystickCenter st)).
  set (distance := sqrt (deltaX * deltaX + deltaY * deltaY)).
  assert (Hdd : distance * distance = deltaX * deltaX + deltaY * deltaY)
    by apply JSMathFacts.hypot_sqr.
  assert (Hd0 : 0 <= distance) by apply sqrt_pos.
  assert (Evec : joystickVector (touchmove_body offsetWidth touch st) =
                 mkPoint
                   (px (joystickPos (touchmove_body offsetWidth touch st))
                    / maxDistance)
                   (py (joystickPos (touchmove_body offsetWidth touch st))
                    / maxDistance)) by reflexivity.
  rewrite Evec. clear Evec.
  assert (Epos : joystickPos (touchmove_body offsetWidth touch st) =
                 if Rlt_dec maxDistance distance
                 then mkPoint (maxDistance / distance * deltaX)
                              (maxDistance / distance * deltaY)
                 else mkPoint deltaX deltaY).
  { destruct (Rlt_dec maxDistance distance) as [Hfar | Hnear].
    - apply (touchmove_body_clamped touch st HR Hfar).
    - unfold touchmove_body. fold deltaX deltaY. fold distance.
      destruct (Rlt_dec maxDistance distance); [contradiction |].
      reflexivity. }
  rewrite Epos. clear Epos. unfold magnitude.
  rewrite <- sqrt_1. apply sqrt_le_1_alt.
  destruct (Rlt_dec maxDistance distance) as [Hfar | Hnear]; simpl.
  - apply Req_le.
    transitivity ((deltaX * deltaX + deltaY * deltaY)
                  / (distance * distance)).
    + field. lra.
    + rewrite <- Hdd. field. lra.
  - apply Rmult_le_reg_r with (maxDistance * maxDistance); [nra |].
    transitivity (deltaX * deltaX + deltaY * deltaY).
    + apply Req_le. field. lra.
    + nra.
Qed.

Lemma touchend_bounded (touches : list Touch) (st : State) :
  bounded st -> bounded (touchend touches st).
Proof.
  intros Hb. induction touches as [| t rest IH]; simpl.
  - exact Hb.
  - destruct (is_active st t); [apply released_bounded | exact IH].
Qed.

(** X2. Every handler keeps the direction vector within the unit disc, and
    zero while no pointer is active. *)
Theorem dispatch_bounded (st : State) (ev : Event) :
  (0 < offsetWidth)%Z ->
  bounded st -> bounded (dispatch offsetWidth st ev).
Proof.
  intros Hw [Hmag Hzero]. pose proof (radius_pos Hw) as HR.
  destruct ev as [rect touches | touches | touches |]; simpl.
  - unfold touchstart.
    destruct (joystickPointerId st) as [id |] eqn:Hid; simpl.
    + split; [exact Hmag | rewrite Hid; exact Hzero].
    + destruct touches as [| touch rest]; simpl.
      * split; [exact Hmag | rewrite Hid; exact Hzero].
      * split; [exact Hmag | intros _; apply Hzero; reflexivity].
  - unfold touchmove.
    destruct (joystickPointerId st) as [id |] eqn:Hid.
    + rewrite touchmove_loop_find.
      destruct (find _ touches) as [touch |].
      * split; [apply touchmove_body_magnitude; exact HR |].
        simpl. rewrite Hid. discriminate.
      * split; [exact Hmag | rewrite Hid; exact Hzero].
    + split; [exact Hmag | rewrite Hid; exact Hzero].
  - apply touchend_bounded. split; assumption.
  - apply released_bounded.
Qed.

End Handlers.

End JoystickFacts.

(** *** Concrete joystick states *)

Module JoystickExamples.
Import Joystick.

(** A joystick base 100 pixels wide (radius 50), centred at the origin,
    with pointer 0 active. *)
Definition active : State :=
  mkState (Some 0%Z) origin origin origin None.

Definition far_touch : Touch := mkTouch 0 60 80.

Lemma touchmove_polar_clamp_witness :
  magnitude (joystickPos (touchmove 100 [far_touch] active))
  = joystickRadius 100.
Proof.
  refine (proj1 (JoystickFacts.touchmove_polar_clamp
                   100 active 0 [far_touch] far_touch _ eq_refl eq_refl _)).
  - reflexivity.
  - simpl. unfold joystickRadius.
    replace ((60 - 0) * (60 - 0) + (80 - 0) * (80 - 0)) with (100 * 100)
      by ring.
    rewrite sqrt_square by lra. lra.
Defined.

Lemma touchstart_ignored_while_active_witness :
  touchstart (mkRect 0 0 100 100) [mkTouch 1 10 10] active
  = (Returned, active).
Proof.
  apply JoystickFacts.touchstart_ignored_while_active.
  simpl. discriminate.
Defined.

Lemma dispatch_bounded_witness :
  JoystickFacts.bounded (dispatch 100 active (TouchMove [far_touch])).
Proof.
  apply JoystickFacts.dispatch_bounded.
  - reflexivity.
  - split; simpl.
    + rewrite JoystickFacts.magnitude_origin. lra.
    + discriminate.
Defined.

End JoystickExamples.

(** ** The spinning set *)

Module SpinFacts.
Import App.

Lemma has_In (s : RefSet.t) (o : ObjRef) :
  RefSet.has s o = true <-> In o s.
Proof.
  unfold RefSet.has. rewrite existsb_exists. split.
  - intros [x [Hin Heq]]. apply Nat.eqb_eq in Heq. subst x. exact Hin.
  - intros Hin. exists o. split; [exact Hin | apply Nat.eqb_refl].
Qed.

Lemma has_app (s1 s2 : RefSet.t) (o : ObjRef) :
  RefSet.has (s1 ++ s2) o = RefSet.has s1 o || RefSet.has s2 o.
Proof. unfold RefSet.has. apply existsb_app. Qed.

Lemma has_add (s : RefSet.t) (x o : ObjRef) :
  RefSet.has (RefSet.add s x) o = RefSet.has s o || Nat.eqb o x.
Proof.
  unfold RefSet.add. destruct (RefSet.has s x) eqn:Hx.
  - destruct (Nat.eqb_spec o x) as [-> | _].
    + rewrite Hx. reflexivity.
    + rewrite orb_false_r. reflexivity.
  - rewrite has_app. simpl. rewrite orb_false_r. reflexivity.
Qed.

Lemma has_delete (s : RefSet.t) (x o : ObjRef) :
  RefSet.has (RefSet.delete s x) o = RefSet.has s o && negb (Nat.eqb o x).
Proof.
  unfold RefSet.delete, RefSet.has.
  induction s as [| a s IH]; simpl.
  - reflexivity.
  - destruct (Nat.eqb_spec a x) as [-> | Hax]; simpl.
    + rewrite IH. destruct (Nat.eqb_spec o x); simpl.
      * rewrite andb_false_r. reflexivity.
      * reflexivity.
    + rewrite IH. destruct (Nat.eqb_spec o a) as [-> | _]; simpl.
      * destruct (Nat.eqb_spec a x); [contradiction | reflexivity].
      * reflexivity.
Qed.

Lemma has_toggle (s : RefSet.t) (x o : ObjRef) :
  RefSet.has (toggle s x) o =
  if Nat.eqb o x then negb (RefSet.has s x) else RefSet.has s o.
Proof.
  unfold toggle. destruct (RefSet.has s x) eqn:Hx.
  - rewrite has_delete. destruct (Nat.eqb_spec o x) as [-> | _]; simpl.
    + apply andb_false_r.
    + apply andb_true_r.
  - rewrite has_add. destruct (Nat.eqb_spec o x) as [-> | _]; simpl.
    + apply orb_true_r.
    + apply orb_false_r.
Qed.

(** The set keeps each element once. *)
Lemma toggle_NoDup (s : RefSet.t) (x : ObjRef) :
  NoDup s -> NoDup (toggle s x).
Proof.
  intros Hnd. unfold toggle, RefSet.add, RefSet.delete.
  destruct (RefSet.has s x) eqn:Hx.
  - apply NoDup_filter. exact Hnd.
  - apply NoDup_app; [exact Hnd | repeat constructor; intros [] |].
    intros a Hin [<- | []].
    apply has_In in Hin. congruence.
Qed.

Lemma toggleSpin_NoDup (objName : string) (objects : list Entry)
      (spinning : RefSet.t) :
  NoDup spinning -> NoDup (toggleSpin objName objects spinning).
Proof.
  intros Hnd. unfold toggleSpin.
  destruct (String.eqb objName EmptyString); [exact Hnd |].
  destruct (find _ objects) as [objData |]; [| exact Hnd].
  apply toggle_NoDup. exact Hnd.
Qed.

(** C9. Toggling spin twice with the same object chosen gives back the
    membership of every object in the spinning set (the set then holds the
    same elements, each once, as before), and one toggle changes the
    membership of no object other than the one it finds under the chosen
    name. *)
Theorem toggleSpin_involution
        (objName : string) (objects : list Entry) (spinning : RefSet.t) :
  (forall o : ObjRef,
      RefSet.has
        (toggleSpin objName objects (toggleSpin objName objects spinning)) o
      = RefSet.has spinning o) /\
  (NoDup spinning ->
   Permutation
     (toggleSpin objName objects (toggleSpin objName objects spinning))
     spinning) /\
  (forall o : ObjRef,
      (forall objData,
          find (fun e => String.eqb (name e) objName) objects = Some objData ->
          obj objData <> o) ->
      RefSet.has (toggleSpin objName objects spinning) o
      = RefSet.has spinning o).
Proof.
  assert (Htwice : forall o : ObjRef,
             RefSet.has
               (toggleSpin objName objects
                           (toggleSpin objName objects spinning)) o
             = RefSet.has spinning o).
  { unfold toggleSpin.
    destruct (String.eqb objName EmptyString); [reflexivity |].
    destruct (find _ objects) as [objData |]; [| reflexivity].
    intros o. rewrite !has_toggle.
    destruct (Nat.eqb_spec o (obj objData)) as [-> | _].
    - rewrite Nat.eqb_refl. apply negb_involutive.
    - reflexivity. }
  split; [exact Htwice | split].
  - intros Hnd. apply NoDup_Permutation.
    + apply toggleSpin_NoDup, toggleSpin_NoDup, Hnd.
    + exact Hnd.
    + intros o. rewrite <- !has_In, Htwice. reflexivity.
  - unfold toggleSpin.
    destruct (String.eqb objName EmptyString); [reflexivity |].
    destruct (find _ objects) as [objData |]; [| reflexivity].
    intros o Hother. rewrite has_toggle.
    destruct (Nat.eqb_spec o (obj objData)) as [-> | _].
    + exfalso. apply (Hother objData); reflexivity.
    + reflexivity.
Qed.

(** *** The spin block of a frame *)

Lemma spin_cons (delta : R) (o : ObjRef) (s : RefSet.t) (meshes : Store) :
  spin delta (o :: s) meshes =
  spin delta s (modify (Mesh.rotate_y (delta * (2 / 10))) o meshes).
Proof. reflexivity. Qed.

(** An object outside the spinning set is not touched. *)
Lemma spin_outside (delta : R) (spinning : RefSet.t) (meshes : Store)
      (o : ObjRef) :
  RefSet.has spinning o = false -> spin delta spinning meshes o = meshes o.
Proof.
  revert meshes. induction spinning as [| a s IH]; intros meshes Hout.
  - reflexivity.
  - rewrite spin_cons. simpl in Hout.
    apply orb_false_elim in Hout as [Hoa Hs].
    rewrite (IH _ Hs). unfold modify. rewrite Hoa. reflexivity.
Qed.

(** The materials are not touched. *)
Lemma spin_material (delta : R) (spinning : RefSet.t) (meshes : Store)
      (o : ObjRef) :
  Mesh.material (spin delta spinning meshes o) = Mesh.material (meshes o).
Proof.
  revert meshes. induction spinning as [| a s IH]; intros meshes.
  - reflexivity.
  - rewrite spin_cons, IH. unfold modify.
    destruct (Nat.eqb_spec o a) as [-> | _]; reflexivity.
Qed.

(** C10. The spin block keeps the position, the material and the x and z
    rotation of every object, and keeps every object that is not in the
    spinning set as it is: only the y rotation of spinning objects can
    change. *)
Theorem spin_changes_only_rotation_y
        (delta : R) (spinning : RefSet.t) (meshes : Store) (o : ObjRef) :
  Mesh.position (spin delta spinning meshes o) = Mesh.position (meshes o) /\
  Mesh.material (spin delta spinning meshes o) = Mesh.material (meshes o) /\
  Vector3.x (Mesh.rotation (spin delta spinning meshes o))
    = Vector3.x (Mesh.rotation (meshes o)) /\
  Vector3.z (Mesh.rotation (spin delta spinning meshes o))
    = Vector3.z (Mesh.rotation (meshes o)) /\
  (RefSet.has spinning o = false -> spin delta spinning meshes o = meshes o).
Proof.
  revert meshes. induction spinning as [| a s IH]; intros meshes.
  - repeat split; reflexivity.
  - rewrite spin_cons.
    destruct (IH (modify (Mesh.rotate_y (delta * (2 / 10))) a meshes))
      as (Hp & Hm & Hx & Hz & Hout).
    unfold modify in Hp, Hm, Hx, Hz.
    destruct (Nat.eqb_spec o a) as [-> | Hne].
    + repeat split; try assumption.
      simpl. rewrite Nat.eqb_refl. discriminate.
    + repeat split; try assumption.
      intros Hhas. simpl in Hhas.
      apply orb_false_elim in Hhas as [_ Hs].
      rewrite (Hout Hs). unfold modify.
      destruct (Nat.eqb_spec o a); [contradiction | reflexivity].
Qed.

(** An object that is in the set (once) turns by [delta * 0.2]. *)
Lemma spin_rotates (delta : R) (spinning : RefSet.t) (meshes : Store)
      (o : ObjRef) :
  NoDup spinning -> In o spinning ->
  Vector3.y (Mesh.rotation (spin delta spinning meshes o))
  = Vector3.y (Mesh.rotation (meshes o)) + delta * (2 / 10).
Proof.
  revert meshes. induction spinning as [| a s IH]; intros meshes Hnd Hin.
  - destruct Hin.
  - rewrite spin_cons. inversion Hnd as [| ? ? Hnotin Hnd']; subst.
    destruct Hin as [-> | Hin].
    + rewrite spin_outside.
      * unfold modify. rewrite Nat.eqb_refl. reflexivity.
      * destruct (RefSet.has s o) eqn:Hhas; [| reflexivity].
        apply has_In in Hhas. contradiction.
    + rewrite (IH _ Hnd' Hin). unfold modify.
      destruct (Nat.eqb_spec o a) as [-> | _]; [contradiction | reflexivity].
Qed.

End SpinFacts.

(** ** Joystick movement of the camera *)

(** The movement as the specification words it: the camera moves by
    [-deltaVector.y * speed] along the forward direction (the viewing
    direction with its height component zeroed, rescaled to unit length) and
    by [deltaVector.x * speed] along the right direction (the cross product
    of the camera's up and forward, rescaled to unit length); then its
    height is raised to the floor if it is below. *)
Module MovementSpec.

Definition add (a b : Vector3.t) : Vector3.t :=
  Vector3.mk (Vector3.x a + Vector3.x b)
             (Vector3.y a + Vector3.y b)
             (Vector3.z a + Vector3.z b).

Definition scale (k : R) (a : Vector3.t) : Vector3.t :=
  Vector3.mk (k * Vector3.x a) (k * Vector3.y a) (k * Vector3.z a).

Definition cross (a b : Vector3.t) : Vector3.t :=
  Vector3.mk
    (Vector3.y a * Vector3.z b - Vector3.z a * Vector3.y b)
    (Vector3.z a * Vector3.x b - Vector3.x a * Vector3.z b)
    (Vector3.x a * Vector3.y b - Vector3.y a * Vector3.x b).

(** The vector of length 1 along [v]; the zero vector has no direction
    and stays zero. *)
Definition unit (v : Vector3.t) : Vector3.t :=
  if Req_dec_T (Vector3.length v) 0 then v
  else scale (/ Vector3.length v) v.

Definition forward (camera : Camera.t) : Vector3.t :=
  unit (Vector3.mk (Vector3.x (Camera.direction camera)) 0
                   (Vector3.z (Camera.direction camera))).

Definition right (camera : Camera.t) : Vector3.t :=
  unit (cross (Camera.up camera) (forward camera)).

Definition clampHeight (floor : R) (p : Vector3.t) : Vector3.t :=
  Vector3.mk (Vector3.x p) (Rmax (Vector3.y p) floor) (Vector3.z p).

Definition applyMovement (camera : Camera.t) (deltaVector : Joystick.Point)
           (speed floor : R) : Vector3.t :=
  clampHeight floor
    (add (add (Camera.position camera)
              (scale (- Joystick.py deltaVector * speed) (forward camera)))
         (scale (Joystick.px deltaVector * speed) (right camera))).

End MovementSpec.

Module MovementFacts.
Import App.

Lemma normalize_unit (v : Vector3.t) :
  Vector3.normalize v = MovementSpec.unit v.
Proof.
  unfold Vector3.normalize, MovementSpec.unit, Vector3.divideScalar,
    MovementSpec.scale.
  destruct (Req_dec_T (Vector3.length v) 0) as [_ | Hlen].
  - destruct v as [a b c]; simpl. f_equal; field.
  - f_equal; field; exact Hlen.
Qed.

Lemma nonzero_true (v : Joystick.Point) :
  Joystick.px v <> 0 \/ Joystick.py v <> 0 -> nonzero v = true.
Proof.
  intros H. unfold nonzero.
  destruct (Req_dec_T (Joystick.px v) 0) as [Ex | _]; [| reflexivity].
  destruct (Req_dec_T (Joystick.py v) 0) as [Ey | _]; [| reflexivity].
  destruct H; contradiction.
Qed.

Lemma moveCamera_spec (v : Joystick.Point) (camera : Camera.t) :
  Camera.position (moveCamera v camera)
  = MovementSpec.applyMovement camera v moveSpeed floorHeight.
Proof.
  unfold moveCamera, MovementSpec.applyMovement, MovementSpec.right,
    MovementSpec.forward, Camera.getWorldDirection, Vector3.set_y.
  cbn [Camera.position Vector3.x Vector3.z].
  rewrite !normalize_unit.
  fold (MovementSpec.cross (Camera.up camera)
          (MovementSpec.unit
             (Vector3.mk (Vector3.x (Camera.direction camera)) 0
                         (Vector3.z (Camera.direction camera))))).
  set (fwd := MovementSpec.unit _).
  set (rgt := MovementSpec.unit _).
  unfold MovementSpec.clampHeight, MovementSpec.add, MovementSpec.scale,
    Vector3.addScaledVector. cbn [Vector3.x Vector3.y Vector3.z].
  match goal with
  | |- context [Rlt_dec ?a ?b] => destruct (Rlt_dec a b) as [Hlow | Hhigh]
  end; cbn [Vector3.x Vector3.y Vector3.z].
  - rewrite Rmax_right by lra. f_equal; ring.
  - rewrite Rmax_left by lra. f_equal; ring.
Qed.

Lemma moveCamera_floor (v : Joystick.Point) (camera : Camera.t) :
  floorHeight <= Vector3.y (Camera.position (moveCamera v camera)).
Proof.
  rewrite moveCamera_spec. unfold MovementSpec.applyMovement,
    MovementSpec.clampHeight. cbn [Vector3.y]. apply Rmax_r.
Qed.

Lemma animate_camera (f : Frame) (st : State) :
  camera (animate f st)
  = joystickMovement (Joystick.joystickVector (joystick st))
                     (controls_update f (camera st)).
Proof.
  unfold animate. destruct (hover _ _ _ _). reflexivity.
Qed.

(** C3. When the movement block runs (the direction vector is not zero),
    the camera position becomes the old one displaced by [-y * 0.15] along
    the flattened, renormalized viewing direction and by [x * 0.15] along
    the renormalized cross product of up and forward, with the height then
    clamped to the floor 1.2; the camera's up and viewing direction are
    kept. *)
Theorem joystickMovement_displacement
        (v : Joystick.Point) (camera : Camera.t) :
  Joystick.px v <> 0 \/ Joystick.py v <> 0 ->
  Camera.position (joystickMovement v camera)
    = MovementSpec.applyMovement camera v (15 / 100) (12 / 10) /\
  Camera.up (joystickMovement v camera) = Camera.up camera /\
  Camera.direction (joystickMovement v camera) = Camera.direction camera.
Proof.
  intros Hv. unfold joystickMovement. rewrite (nonzero_true v Hv).
  split; [apply moveCamera_spec | split; reflexivity].
Qed.

(** C4. After the movement block has moved the camera its height is at
    least 1.2, whatever the camera and the direction vector were; so it is
    after every frame in which the direction vector is not zero. *)
Theorem camera_height_floor :
  (forall (v : Joystick.Point) (camera : Camera.t),
      12 / 10 <= Vector3.y (Camera.position (moveCamera v camera))) /\
  (forall (f : Frame) (st : State),
      nonzero (Joystick.joystickVector (joystick st)) = true ->
      12 / 10 <= Vector3.y (Camera.position (camera (animate f st)))).
Proof.
  split.
  - intros v camera. apply moveCamera_floor.
  - intros f st Hv. rewrite animate_camera. unfold joystickMovement.
    rewrite Hv. apply moveCamera_floor.
Qed.

(** A camera at the script's starting position, looking down and ahead
    along the unit vector (0, -3/5, -4/5). *)
Definition camera0 : Camera.t :=
  Camera.mk (Vector3.mk 0 15 25) (Vector3.mk 0 1 0)
            (Vector3.mk 0 (- (3 / 5)) (- (4 / 5))).

Lemma joystickMovement_displacement_witness :
  Camera.position (joystickMovement (Joystick.mkPoint 1 0) camera0)
  = MovementSpec.applyMovement camera0 (Joystick.mkPoint 1 0)
                               (15 / 100) (12 / 10).
Proof.
  refine (proj1 (joystickMovement_displacement
                   (Joystick.mkPoint 1 0) camera0 _)).
  left. simpl. lra.
Defined.

End MovementFacts.

(** ** Hover and selection *)

Module SelectionFacts.
Import App.

Lemma modify_same (f : Mesh.t -> Mesh.t) (o : ObjRef) (meshes : Store) :
  modify f o meshes o = f (meshes o).
Proof. unfold modify. rewrite Nat.eqb_refl. reflexivity. Qed.

Lemma modify_other (f : Mesh.t -> Mesh.t) (o o' : ObjRef) (meshes : Store) :
  o' <> o -> modify f o meshes o' = meshes o'.
Proof.
  intros Hne. unfold modify.
  destruct (Nat.eqb_spec o' o); [contradiction | reflexivity].
Qed.

Lemma same_ref_Some (a b : ObjRef) :
  same_ref (Some a) (Some b) = true <-> a = b.
Proof. simpl. apply Nat.eqb_eq. Qed.

Lemma same_ref_spec (a b : option ObjRef) : same_ref a b = true <-> a = b.
Proof.
  destruct a as [a |], b as [b |]; simpl.
  - rewrite Nat.eqb_eq. split; congruence.
  - split; discriminate.
  - split; discriminate.
  - split; reflexivity.
Qed.

(** The material of a mesh carries the selected highlight: the turquoise
    tint at full intensity. *)
Definition shows_selected (m : Mesh.t) : Prop :=
  Material.emissive (Mesh.material m) = Material.turquoise /\
  Material.emissiveIntensity (Mesh.material m) = 1.

(** The material of a mesh carries no highlight. *)
Definition shows_none (m : Mesh.t) : Prop :=
  Material.emissive (Mesh.material m) = 0%Z /\
  Material.emissiveIntensity (Mesh.material m) = 0.

(** *** The tap and click handlers *)

(** What the specification asks of [selectOnTap] and [selectOnClick]. *)
Definition selects_hovered (handler : State -> State) : Prop :=
  forall (st : State) (h : ObjRef),
    hoveredObject st = Some h ->
    selectedObject st <> Some h ->
    selectedObject (handler st) = Some h /\
    hoveredObject (handler st) = Some h /\
    shows_selected (meshes (handler st) h) /\
    (forall old, selectedObject st = Some old ->
                 shows_none (meshes (handler st) old)) /\
    (forall o, o <> h -> selectedObject st <> Some o ->
               meshes (handler st) o = meshes st o).

Definition deselects (handler : State -> State) : Prop :=
  forall (st : State) (s : ObjRef),
    hoveredObject st = None ->
    selectedObject st = Some s ->
    selectedObject (handler st) = None /\
    hoveredObject (handler st) = None /\
    shows_none (meshes (handler st) s) /\
    (forall o, o <> s -> meshes (handler st) o = meshes st o).

Definition keeps_selection (handler : State -> State) : Prop :=
  forall (st : State) (h : ObjRef),
    hoveredObject st = Some h ->
    selectedObject st = Some h ->
    handler st = st.

Lemma window_click_touchend (st : State) :
  window_click st = window_touchend st.
Proof. reflexivity. Qed.

Lemma touchend_selects_hovered : selects_hovered window_touchend.
Proof.
  intros st h Hhov Hsel. unfold window_touchend. rewrite Hhov.
  destruct (same_ref (Some h) (selectedObject st)) eqn:Hsame.
  - apply same_ref_spec in Hsame. congruence.
  - simpl. split; [reflexivity | split; [reflexivity | split; [| split]]].
    + rewrite modify_same. split; reflexivity.
    + intros old Hold. rewrite Hold.
      assert (Hne : old <> h) by congruence.
      rewrite modify_other by exact Hne.
      rewrite modify_same. split; reflexivity.
    + intros o Hoh Hos. rewrite modify_other by exact Hoh.
      destruct (selectedObject st) as [s |]; [| reflexivity].
      apply modify_other. congruence.
Qed.

Lemma touchend_deselects : deselects window_touchend.
Proof.
  intros st s Hhov Hsel. unfold window_touchend. rewrite Hhov, Hsel. simpl.
  split; [reflexivity | split; [reflexivity | split]].
  - rewrite modify_same. split; reflexivity.
  - intros o Hne. apply modify_other. exact Hne.
Qed.

Lemma touchend_keeps_selection : keeps_selection window_touchend.
Proof.
  intros st h Hhov Hsel. unfold window_touchend. rewrite Hhov, Hsel.
  simpl. rewrite Nat.eqb_refl. reflexivity.
Qed.

(** C5. On a tap (the [touchend] listener of [window]) and on a click
    alike: a hovered object that is not the selection becomes the
    selection and gets the full-intensity turquoise highlight, while the old
    selection, if any, loses its highlight; with nothing hovered, a
    selection loses its highlight and the selection becomes empty; with the
    hovered object already selected, nothing changes. *)
Theorem tap_click_selection :
  (selects_hovered window_touchend /\ deselects window_touchend /\
   keeps_selection window_touchend) /\
  (selects_hovered window_click /\ deselects window_click /\
   keeps_selection window_click).
Proof.
  split; (split; [| split]).
  - exact touchend_selects_hovered.
  - exact touchend_deselects.
  - exact touchend_keeps_selection.
  - intros st h. rewrite window_click_touchend.
    apply touchend_selects_hovered.
  - intros st s. rewrite window_click_touchend. apply touchend_deselects.
  - intros st h. rewrite window_click_touchend.
    apply touchend_keeps_selection.
Qed.

(** *** The hover block of a frame *)

Lemma animate_selected (f : Frame) (st : State) :
  selectedObject (animate f st) = selectedObject st.
Proof. unfold animate. destruct (hover _ _ _ _). reflexivity. Qed.

Lemma animate_meshes (f : Frame) (st : State) :
  meshes (animate f st)
  = fst (hover (intersects f) (hoveredObject st) (selectedObject st)
               (spin (delta f) (spinningObjects st) (meshes st))).
Proof. unfold animate. destruct (hover _ _ _ _). reflexivity. Qed.

Lemma animate_hovered (f : Frame) (st : State) :
  hoveredObject (animate f st)
  = snd (hover (intersects f) (hoveredObject st) (selectedObject st)
               (spin (delta f) (spinningObjects st) (meshes st))).
Proof. unfold animate. destruct (hover _ _ _ _). reflexivity. Qed.

(** Clearing the old hover highlight never touches the selected object. *)
Lemma unhover_selected (hovered : option ObjRef) (s : ObjRef)
      (meshes : Store) :
  unhover hovered (Some s) meshes s = meshes s.
Proof.
  unfold unhover. destruct hovered as [h |]; [| reflexivity].
  destruct (same_ref (Some h) (Some s)) eqn:Hsame; [reflexivity |].
  apply modify_other. intros ->. simpl in Hsame.
  rewrite Nat.eqb_refl in Hsame. discriminate.
Qed.

(** The hover block never writes to the selected object. *)
Lemma hover_selected (ints : list ObjRef) (hovered : option ObjRef)
      (s : ObjRef) (meshes : Store) :
  fst (hover ints hovered (Some s) meshes) s = meshes s.
Proof.
  unfold hover. destruct ints as [| intersected rest]; simpl fst.
  - apply unhover_selected.
  - destruct (same_ref hovered (Some intersected)); [reflexivity |].
    unfold same_ref.
    destruct (Nat.eqb_spec intersected s) as [_ | Hne]; simpl fst.
    + apply unhover_selected.
    + rewrite modify_other; [apply unhover_selected |].
      intros ->. apply Hne. reflexivity.
Qed.

(** A frame keeps the selection and the material of the selected object. *)
Lemma animate_keeps_selected (f : Frame) (st : State) (s : ObjRef) :
  selectedObject st = Some s ->
  selectedObject (animate f st) = Some s /\
  Mesh.material (meshes (animate f st) s) = Mesh.material (meshes st s).
Proof.
  intros Hsel. rewrite animate_selected, animate_meshes, Hsel.
  split; [reflexivity |].
  rewrite hover_selected. apply SpinFacts.spin_material.
Qed.

Lemma ticks_keep_selected (frames : list Frame) (st : State) (s : ObjRef) :
  selectedObject st = Some s ->
  selectedObject (run (List.map Tick frames) st) = Some s /\
  Mesh.material (meshes (run (List.map Tick frames) st) s)
  = Mesh.material (meshes st s).
Proof.
  revert st. induction frames as [| f frames IH]; intros st Hsel.
  - split; [exact Hsel | reflexivity].
  - destruct (animate_keeps_selected f st s Hsel) as [Hsel' Hmat].
    destruct (IH (animate f st) Hsel') as [Hsel'' Hmat'].
    change (run (List.map Tick (f :: frames)) st)
      with (run (List.map Tick frames) (animate f st)).
    split; [exact Hsel'' |].
    rewrite Hmat'. exact Hmat.
Qed.

(** *** The selected object is shown as selected, in every state *)

Definition selected_lit (st : State) : Prop :=
  forall s, selectedObject st = Some s -> shows_selected (meshes st s).

Lemma touchend_selected_lit (st : State) :
  selected_lit st -> selected_lit (window_touchend st).
Proof.
  intros Hlit s. unfold window_touchend.
  destruct (hoveredObject st) as [h |] eqn:Hhov.
  - destruct (same_ref (Some h) (selectedObject st)); [apply Hlit |].
    simpl. intros [= ->]. rewrite modify_same. split; reflexivity.
  - destruct (selectedObject st) as [old |] eqn:Hsel.
    + simpl. discriminate.
    + rewrite Hsel. discriminate.
Qed.

Lemma step_selected_lit (st : State) (ev : Event) :
  selected_lit st -> selected_lit (step st ev).
Proof.
  intros Hlit. destruct ev as [f | |]; simpl.
  - intros s Hsel. rewrite animate_selected in Hsel.
    destruct (animate_keeps_selected f st s Hsel) as [_ Hmat].
    unfold shows_selected. rewrite Hmat. apply Hlit. exact Hsel.
  - apply touchend_selected_lit. exact Hlit.
  - rewrite window_click_touchend. apply touchend_selected_lit. exact Hlit.
Qed.

Lemma run_selected_lit (evs : list Event) (st : State) :
  selected_lit st -> selected_lit (run evs st).
Proof.
  revert st. induction evs as [| ev evs IH]; intros st Hlit.
  - exact Hlit.
  - simpl. apply IH, step_selected_lit, Hlit.
Qed.

Lemma initial_selected_lit (st : State) : initial st -> selected_lit st.
Proof. intros [_ Hsel] s Hs. congruence. Qed.

(** C6. In every state reached from the start by frames, taps and clicks,
    an object that is both hovered and selected carries the selected
    highlight: the turquoise tint at intensity 1, not the hover intensity
    0.6. *)
Theorem hovered_and_selected_shows_selected
        (st0 : State) (evs : list Event) (o : ObjRef) :
  initial st0 ->
  hoveredObject (run evs st0) = Some o ->
  selectedObject (run evs st0) = Some o ->
  Material.emissive (Mesh.material (meshes (run evs st0) o))
    = Material.turquoise /\
  Material.emissiveIntensity (Mesh.material (meshes (run evs st0) o)) = 1 /\
  Material.emissiveIntensity (Mesh.material (meshes (run evs st0) o))
    <> 6 / 10.
Proof.
  intros Hinit _ Hsel.
  destruct (run_selected_lit evs st0 (initial_selected_lit st0 Hinit) o Hsel)
    as [Hcol Hint].
  split; [exact Hcol | split; [exact Hint | rewrite Hint; lra]].
Qed.

(** C7. Once an object is selected (in a state reached from the start),
    frames alone never change its highlight, whatever the ray hits or
    misses: it stays the selection and keeps the material it had, which is
    the turquoise tint at intensity 1. *)
Theorem selected_highlight_survives_frames
        (st0 : State) (evs : list Event) (frames : list Frame) (o : ObjRef) :
  initial st0 ->
  selectedObject (run evs st0) = Some o ->
  selectedObject (run (List.map Tick frames) (run evs st0)) = Some o /\
  Mesh.material (meshes (run (List.map Tick frames) (run evs st0)) o)
    = Mesh.material (meshes (run evs st0) o) /\
  Material.emissive
    (Mesh.material (meshes (run (List.map Tick frames) (run evs st0)) o))
    = Material.turquoise /\
  Material.emissiveIntensity
    (Mesh.material (meshes (run (List.map Tick frames) (run evs st0)) o))
    = 1.
Proof.
  intros Hinit Hsel.
  destruct (ticks_keep_selected frames (run evs st0) o Hsel) as [Hsel' Hmat].
  destruct (run_selected_lit evs st0 (initial_selected_lit st0 Hinit) o Hsel)
    as [Hcol Hint].
  split; [exact Hsel' | split; [exact Hmat |]].
  rewrite Hmat. split; assumption.
Qed.

End SelectionFacts.

(** ** A concrete scene *)

Module SceneExamples.
Import App.

(** A mesh as [createPrimitive] leaves it as far as highlights go: black
    emissive colour at the library's default intensity, no texture. *)
Definition plain : Mesh.t :=
  Mesh.mk (Vector3.mk 0 (15 / 10) 0) (Vector3.mk 0 0 0)
          (Material.mk 0%Z 1 None).

(** Three registered objects. *)
Definition box : ObjRef := 1%nat.
Definition sphere : ObjRef := 2%nat.
Definition cone : ObjRef := 3%nat.

Definition start : State :=
  mkState MovementFacts.camera0 Joystick.init
          [mkEntry box "prepop1_box"; mkEntry sphere "prepop2_sphere";
           mkEntry cone "prepop3_cone"]
          [] (fun _ => plain) None None.

(** A frame in which the ray from the screen centre hits [o] first. *)
Definition looking_at (o : ObjRef) : Frame :=
  mkFrame (fun camera => camera) 0 [o].

(** A frame in which the ray hits nothing. *)
Definition looking_away : Frame := mkFrame (fun camera => camera) 0 [].

Lemma start_initial : initial start.
Proof. split; reflexivity. Qed.

Lemma hovered_and_selected_shows_selected_witness :
  Material.emissiveIntensity
    (Mesh.material
       (meshes (run [Tick (looking_at sphere); Click] start) sphere)) = 1.
Proof.
  refine (proj1 (proj2 (SelectionFacts.hovered_and_selected_shows_selected
                          start [Tick (looking_at sphere); Click] sphere
                          start_initial _ _))); reflexivity.
Defined.

Lemma selected_highlight_survives_frames_witness :
  selectedObject
    (run (List.map Tick [looking_at cone; looking_away])
         (run [Tick (looking_at sphere); Tap] start)) = Some sphere.
Proof.
  refine (proj1 (SelectionFacts.selected_highlight_survives_frames
                   start [Tick (looking_at sphere); Tap]
                   [looking_at cone; looking_away] sphere start_initial _)).
  reflexivity.
Defined.

(** The three highlight levels as materials of the example meshes. *)
Definition plain_material : Material.t := Material.mk 0 1 None.
Definition cleared_material : Material.t := Material.mk 0 0 None.
Definition hover_material : Material.t :=
  Material.mk Material.turquoise (6 / 10) None.
Definition selected_material : Material.t :=
  Material.mk Material.turquoise 1 None.

(** The specification's scenario: the ray hits the sphere only, then a
    click, then the ray hits the cone.  The sphere is hovered, then
    selected, and keeps the selected highlight while the cone gets the hover
    one. *)
Example scenario_hover_click_hover :
  let st1 := run [Tick (looking_at sphere)] start in
  let st2 := run [Tick (looking_at sphere); Click] start in
  let st3 :=
    run [Tick (looking_at sphere); Click; Tick (looking_at cone)] start in
  (Mesh.material (meshes st1 sphere) = hover_material
   /\ Mesh.material (meshes st1 box) = plain_material
   /\ Mesh.material (meshes st1 cone) = plain_material) /\
  (selectedObject st2 = Some sphere
   /\ Mesh.material (meshes st2 sphere) = selected_material) /\
  (hoveredObject st3 = Some cone /\ selectedObject st3 = Some sphere
   /\ Mesh.material (meshes st3 cone) = hover_material
   /\ Mesh.material (meshes st3 sphere) = selected_material).
Proof. repeat split. Qed.

(** Selecting the sphere and then the cone leaves the sphere without
    highlight and the cone with the selected one. *)
Example scenario_select_a_then_b :
  let st :=
    run [Tick (looking_at sphere); Click; Tick (looking_at cone); Click]
        start in
  selectedObject st = Some cone /\
  Mesh.material (meshes st sphere) = cleared_material /\
  Mesh.material (meshes st cone) = selected_material.
Proof. repeat split. Qed.

(** Pointer-down and then a move of the same touch, wherever it goes
    (also to an offset of twice the radius at 45 degrees): the direction
    vector is still zero. *)
Example scenario_down_then_move (rect : Joystick.DOMRect) (x y : R) :
  Joystick.joystickVector
    (Joystick.run 100
       [Joystick.TouchStart rect [Joystick.mkTouch 0 x y];
        Joystick.TouchMove [Joystick.mkTouch 0 x y]])
  = Joystick.origin.
Proof. reflexivity. Qed.

Lemma length_flat_direction :
  Vector3.length (Vector3.mk 0 0 (- (4 / 5))) = 4 / 5.
Proof.
  unfold Vector3.length; simpl.
  replace (0 * 0 + 0 * 0 + - (4 / 5) * - (4 / 5)) with (4 / 5 * (4 / 5))
    by field.
  apply sqrt_square. lra.
Qed.

Lemma length_minus_x : Vector3.length (Vector3.mk (-1) 0 0) = 1.
Proof.
  unfold Vector3.length; simpl.
  replace (-1 * -1 + 0 * 0 + 0 * 0) with 1 by ring. apply sqrt_1.
Qed.

(** The flattened, renormalized viewing direction of the example camera. *)
Lemma forward_camera0 :
  MovementSpec.forward MovementFacts.camera0 = Vector3.mk 0 0 (-1).
Proof.
  unfold MovementSpec.forward, MovementSpec.unit, MovementFacts.camera0.
  cbn [Camera.direction Vector3.x Vector3.z].
  rewrite length_flat_direction.
  destruct (Req_dec_T (4 / 5) 0) as [Habs | _]; [lra |].
  unfold MovementSpec.scale; simpl. f_equal; field.
Qed.

(** Its right direction, as the code computes it. *)
Lemma right_camera0 :
  MovementSpec.right MovementFacts.camera0 = Vector3.mk (-1) 0 0.
Proof.
  unfold MovementSpec.right. rewrite forward_camera0.
  replace (MovementSpec.cross (Camera.up MovementFacts.camera0)
                              (Vector3.mk 0 0 (-1)))
    with (Vector3.mk (-1) 0 0)
    by (unfold MovementSpec.cross; simpl; f_equal; ring).
  unfold MovementSpec.unit. rewrite length_minus_x.
  destruct (Req_dec_T 1 0) as [Habs | _]; [lra |].
  unfold MovementSpec.scale; simpl. f_equal; field.
Qed.

(** With the camera at (0, 15, 25) looking towards -z (so that the
    viewer's right is +x), the joystick pushed fully to the right moves the
    camera to x = -0.15: the cross product of up and forward points to the
    viewer's left. *)
Example joystick_right_moves_left :
  Camera.position
    (joystickMovement (Joystick.mkPoint 1 0) MovementFacts.camera0)
  = Vector3.mk (- (15 / 100)) 15 25.
Proof.
  unfold joystickMovement.
  rewrite (MovementFacts.nonzero_true (Joystick.mkPoint 1 0))
    by (left; simpl; lra).
  rewrite MovementFacts.moveCamera_spec.
  unfold MovementSpec.applyMovement.
  rewrite right_camera0, forward_camera0.
  unfold MovementSpec.clampHeight, MovementSpec.add, MovementSpec.scale,
    MovementFacts.camera0, moveSpeed, floorHeight; simpl.
  rewrite Rmax_left by lra.
  f_equal; lra.
Qed.

End SceneExamples.

(* ================================================================== *)
(** * Part III: the rest of the script                                 *)
(* ================================================================== *)

(** ** Template literals *)

Module Template.

(** [`${n}`] for a count [n]: its decimal digits. *)
Definition number (n : nat) : string :=
  NilEmpty.string_of_uint (Nat.to_uint n).

(** [`prepop${i + 1}_${type}`], line 148. *)
Definition prepopName (i : nat) (type : string) : string :=
  ("prepop" ++ number (i + 1) ++ "_" ++ type)%string.

(** [`obj${objects.length + 1}_${type}`], line 160. *)
Definition objName (length : nat) (type : string) : string :=
  ("obj" ++ number (length + 1) ++ "_" ++ type)%string.

End Template.

(** ** The geometries of the primitives *)

Module Geometry.

Inductive t : Type :=
| Box (width height depth : R)
| Sphere (radius : R) (widthSegments heightSegments : nat)
| Cone (radius height : R) (radialSegments : nat)
| Cylinder (radiusTop radiusBottom height : R) (radialSegments : nat)
| Plane (width height : R).

(** [geometry.parameters.height]; a sphere has none ([undefined]). *)
Definition height_parameter (g : t) : option R :=
  match g with
  | Box _ height _ => Some height
  | Sphere _ _ _ => None
  | Cone _ height _ => Some height
  | Cylinder _ _ height _ => Some height
  | Plane _ height => Some height
  end.

End Geometry.

(** ** Objects, textures and the whole page *)

Module Scene.
Import App.

(** The script's variables: those of [App], the texture last loaded, and
    the options the script has appended to the two object selects. *)
Record State : Type := mkState {
  app : App.State;
  loadedTexture : option nat;
  applyTextureSelect : list string;
  spinObjectsSelect : list string
}.

(** [new THREE.Mesh(...)] yields a reference that nothing holds yet.  Every
    mesh the script creates is registered at once, so the number of
    registered objects serves as the new reference. *)
Definition newRef (st : State) : ObjRef := List.length (objects (app st)).

(** [addObject(obj, name)], lines 85-101.  [mesh] is the state of the object
    behind [obj] when it is added. *)
Definition addObject (obj : ObjRef) (mesh : Mesh.t) (name : string)
           (st : State) : State :=
  mkState
    (App.mkState (camera (app st)) (joystick (app st))
                 (objects (app st) ++ [mkEntry obj name])
                 (spinningObjects (app st))
                 (modify (fun _ => mesh) obj (meshes (app st)))
                 (hoveredObject (app st)) (selectedObject (app st)))
    (loadedTexture st)
    (applyTextureSelect st ++ [name])
    (spinObjectsSelect st ++ [name]).

(** The [switch] of [createPrimitive], lines 106-124. *)
Definition geometryFor (type : string) : Geometry.t :=
  if String.eqb type "box" then Geometry.Box 3 3 3
  else if String.eqb type "sphere" then Geometry.Sphere (15 / 10) 32 32
  else if String.eqb type "cone" then Geometry.Cone (15 / 10) 4 32
  else if String.eqb type "cylinder"
       then Geometry.Cylinder (15 / 10) (15 / 10) 4 32
  else if String.eqb type "plane" then Geometry.Plane 4 3
  else Geometry.Box 3 3 3.

(** [geometry.parameters.height ? geometry.parameters.height / 2 : 1.5];
    [undefined] and [0] are falsy. *)
Definition restingHeight (g : Geometry.t) : R :=
  match Geometry.height_parameter g with
  | Some height => if Req_dec_T height 0 then 15 / 10 else height / 2
  | None => 15 / 10
  end.

(** The material [new THREE.MeshStandardMaterial({ color, roughness,
    metalness })] as far as the script looks at it: black emissive colour
    at the library's default intensity 1, no texture map. *)
Definition newMaterial : Material.t := Material.mk 0 1 None.

(** [createPrimitive(type)], lines 104-139; [random1] and [random2] are the
    two results of [Math.random()], in call order. *)
Definition createPrimitive (type : string) (random1 random2 : R)
  : Geometry.t * Mesh.t :=
  let geometry := geometryFor type in
  (geometry,
   Mesh.mk (Vector3.mk ((random1 - 5 / 10) * 30)
                       (restingHeight geometry)
                       ((random2 - 5 / 10) * 30))
           (Vector3.mk 0 0 0)
           newMaterial).

(** The click listener of the add-primitive button, lines 157-163;
    [type] is [primitiveSelect.value]. *)
Definition addPrimitiveBtn_click (type : string) (random1 random2 : R)
           (st : State) : State :=
  let '(_, mesh) := createPrimitive type random1 random2 in
  let name := Template.objName (List.length (objects (app st))) type in
  addObject (newRef st) mesh name st.

Definition types : list string :=
  ["box"; "sphere"; "cone"; "cylinder"; "plane"]%string.

(** One round of the loop of [prepopulateObjects], lines 145-150;
    [random k] is the result of the [k]-th call of [Math.random()]. *)
Definition prepopulate_round (random : nat -> R) (st : State) (i : nat)
  : State :=
  let type := nth (i mod List.length types) types EmptyString in
  let '(geometry, mesh) :=
    createPrimitive type (random (2 * i)%nat) (random (2 * i + 1)%nat) in
  let mesh :=
    Mesh.mk (Vector3.mk (INR i * 6 - 12) (restingHeight geometry) 0)
            (Mesh.rotation mesh) (Mesh.material mesh) in
  addObject (newRef st) mesh (Template.prepopName i type) st.

(** [prepopulateObjects()], lines 142-152. *)
Definition prepopulateObjects (random : nat -> R) (st : State) : State :=
  fold_left (prepopulate_round random) (seq 0 5) st.

(** The variables before [prepopulateObjects()] runs: no object, nothing
    spinning, hovered or selected, no texture.  [meshes0] is what lies
    behind references not yet in use. *)
Definition blank (camera : Camera.t) (meshes0 : Store) : State :=
  mkState (App.mkState camera Joystick.init [] [] meshes0 None None)
          None [] [].

(** The variables when the script has run to its end. *)
Definition boot (camera : Camera.t) (meshes0 : Store) (random : nat -> R)
  : State :=
  prepopulateObjects random (blank camera meshes0).

(** The success callback of [textureLoader.load], lines 173-177 and
    246-249. *)
Definition textureLoaded (texture : nat) (st : State) : State :=
  mkState (app st) (Some texture)
          (applyTextureSelect st) (spinObjectsSelect st).

(** [material.map = texture] *)
Definition with_map (texture : nat) (m : Material.t) : Material.t :=
  Material.mk (Material.emissive m) (Material.emissiveIntensity m)
              (Some texture).

(** The click listener of the apply-texture button, lines 184-199;
    [objName] is [applyTextureSelect.value]. *)
Definition applyTextureBtn_click (objName : string) (st : State) : State :=
  if String.eqb objName EmptyString then st
  else
    match loadedTexture st with
    | None => st
    | Some texture =>
        match find (fun o => String.eqb (name o) objName)
                   (objects (app st)) with
        | None => st
        | Some objectData =>
            mkState
              (App.mkState
                 (camera (app st)) (joystick (app st)) (objects (app st))
                 (spinningObjects (app st))
                 (modify (Mesh.with_material (with_map texture))
                         (obj objectData) (meshes (app st)))
                 (hoveredObject (app st)) (selectedObject (app st)))
              (loadedTexture st)
              (applyTextureSelect st) (spinObjectsSelect st)
        end
    end.

Definition with_app (f : App.State -> App.State) (st : State) : State :=
  mkState (f (app st)) (loadedTexture st)
          (applyTextureSelect st) (spinObjectsSelect st).

Definition with_joystick (f : Joystick.State -> Joystick.State)
           (a : App.State) : App.State :=
  App.mkState (camera a) (f (joystick a)) (objects a) (spinningObjects a)
              (meshes a) (hoveredObject a) (selectedObject a).

(** Everything that can happen on the page. *)
Inductive Event : Type :=
| AddPrimitive (type : string) (random1 random2 : R)
| TextureLoaded (texture : nat)
| ApplyTexture (objName : string)
| ToggleSpin (objName : string)
| Joy (ev : Joystick.Event)
| Frame (f : App.Frame)
| Tap
| Click.

Section Page.

Variable offsetWidth : Z.

Definition step (st : State) (ev : Event) : State :=
  match ev with
  | AddPrimitive type random1 random2 =>
      addPrimitiveBtn_click type random1 random2 st
  | TextureLoaded texture => textureLoaded texture st
  | ApplyTexture objName => applyTextureBtn_click objName st
  | ToggleSpin objName => with_app (toggleSpinBtn_click objName) st
  | Joy ev =>
      with_app
        (with_joystick (fun j => Joystick.dispatch offsetWidth j ev)) st
  | Frame f => with_app (animate f) st
  | Tap => with_app window_touchend st
  | Click => with_app window_click st
  end.

Definition run (evs : list Event) (st : State) : State :=
  fold_left step evs st.

(** The ray cast of a frame is made against the registered objects, so its
    hits are among them. *)
Definition hits_registered (st : State) (ev : Event) : Prop :=
  match ev with
  | Frame f =>
      Forall (fun o => In o (List.map obj (objects (app st))))
             (intersects f)
  | _ => True
  end.

Fixpoint well_formed (evs : list Event) (st : State) : Prop :=
  match evs with
  | [] => True
  | ev :: rest => hits_registered st ev /\ well_formed rest (step st ev)
  end.

End Page.

End Scene.

(** ** The data cloud: points on a torus *)

Module Torus.

(** A plain [{ x, y, z }] object. *)
Record Point : Type := mkPoint { x : R; y : R; z : R }.

(** [getPointOnTorus(radius, tube, radialSegments, tubularSegments, i)] *)
Definition getPointOnTorus
           (radius tube radialSegments tubularSegments i : R) : Point :=
  let u := i / tubularSegments * PI * 2 in
  let v := i / radialSegments * PI * 2 in
  mkPoint ((radius + tube * cos v) * cos u)
          ((radius + tube * cos v) * sin u)
          (tube * sin v).

Definition DATA_POINTS_COUNT : R := 500.
Definition radius : R := 50.
Definition tube : R := 10.

(** A colour by its three channels. *)
Record Color : Type := mkColor { r : R; g : R; b : R }.

(** [new THREE.Color(hex)]: each channel is its byte over 255. *)
Definition color1 : Color := mkColor (153 / 255) 0 1.
Definition color2 : Color := mkColor 0 1 1.
Definition color3 : Color := mkColor (57 / 255) 1 (20 / 255).

(** [color.lerpColors(c1, c2, alpha)] *)
Definition lerpColors (c1 c2 : Color) (alpha : R) : Color :=
  mkColor (r c1 + (r c2 - r c1) * alpha)
          (g c1 + (g c2 - g c1) * alpha)
          (b c1 + (b c2 - b c1) * alpha).

(** The blend factor of the colour of a point at height [z]. *)
Definition blend (z : R) : R :=
  if Rlt_dec 0 z then z / tube * (5 / 10) + 5 / 10
  else Rabs z / tube * (5 / 10) + 5 / 10.

(** What one round of the generation loop produces: the entry pushed on
    [data] and the colour written to [colors].  The four random numbers
    are the results of [Math.random()] in call order; the rounding of the
    typed arrays is left out. *)
Record Datum : Type := mkDatum { point : Point; value : R; color : Color }.

Definition generate (i : nat) (random1 random2 random3 random4 : R)
  : Datum :=
  let point :=
    getPointOnTorus radius tube DATA_POINTS_COUNT DATA_POINTS_COUNT
                    (INR i) in
  let point :=
    mkPoint (x point + (random1 - 5 / 10) * tube * 2)
            (y point + (random2 - 5 / 10) * tube * 2)
            (z point + (random3 - 5 / 10) * tube * 2) in
  let color :=
    if Rlt_dec 0 (z point)
    then lerpColors color1 color2 (z point / tube * (5 / 10) + 5 / 10)
    else lerpColors color2 color3 (Rabs (z point) / tube * (5 / 10) + 5 / 10)
  in
  mkDatum point random4 color.

End Torus.

(* ================================================================== *)
(** * Part IV: properties of the whole page                            *)
(* ================================================================== *)

(** ** Object names *)

Module TemplateFacts.

(** Digits followed by an underscore: the digits are determined. *)
Lemma digits_sep_inj (d1 d2 : uint) (t1 t2 : string) :
  (NilEmpty.string_of_uint d1 ++ String "_" t1
   = NilEmpty.string_of_uint d2 ++ String "_" t2)%string ->
  d1 = d2.
Proof.
  revert d2. induction d1 as [| d1 IH | d1 IH | d1 IH | d1 IH | d1 IH
                              | d1 IH | d1 IH | d1 IH | d1 IH | d1 IH];
    intros d2 H; destruct d2; simpl in H; try discriminate H;
    try reflexivity; injection H as H; f_equal; apply IH; exact H.
Qed.

Lemma number_sep_inj (a b : nat) (t1 t2 : string) :
  (Template.number a ++ "_" ++ t1 = Template.number b ++ "_" ++ t2)%string ->
  a = b.
Proof.
  unfold Template.number. simpl. intros H.
  apply Unsigned.to_uint_inj. exact (digits_sep_inj _ _ _ _ H).
Qed.

Lemma prepopName_inj (i j : nat) (t1 t2 : string) :
  Template.prepopName i t1 = Template.prepopName j t2 -> i = j.
Proof.
  unfold Template.prepopName. intros H. simpl in H.
  injection H as H. apply number_sep_inj in H. lia.
Qed.

Lemma objName_inj (i j : nat) (t1 t2 : string) :
  Template.objName i t1 = Template.objName j t2 -> i = j.
Proof.
  unfold Template.objName. intros H. simpl in H.
  injection H as H. apply number_sep_inj in H. lia.
Qed.

Lemma prepopName_objName (i j : nat) (t1 t2 : string) :
  Template.prepopName i t1 <> Template.objName j t2.
Proof. unfold Template.prepopName, Template.objName. simpl. discriminate. Qed.

Lemma objName_nonempty (i : nat) (t : string) :
  Template.objName i t <> EmptyString.
Proof. unfold Template.objName. simpl. discriminate. Qed.

Lemma prepopName_nonempty (i : nat) (t : string) :
  Template.prepopName i t <> EmptyString.
Proof. unfold Template.prepopName. simpl. discriminate. Qed.

End TemplateFacts.

(** ** The registry of objects *)

Module RegistryFacts.
Import App Scene.

(** The name given to the object registered at position [k]. *)
Definition shaped (k : nat) (nm : string) : Prop :=
  exists type,
    nm = Template.prepopName k type \/ nm = Template.objName k type.

Lemma shaped_inj (i j : nat) (nm : string) :
  shaped i nm -> shaped j nm -> i = j.
Proof.
  intros [t1 [H1 | H1]] [t2 [H2 | H2]]; subst nm.
  - exact (TemplateFacts.prepopName_inj _ _ _ _ H2).
  - exfalso. exact (TemplateFacts.prepopName_objName _ _ _ _ H2).
  - exfalso. symmetry in H2.
    exact (TemplateFacts.prepopName_objName _ _ _ _ H2).
  - exact (TemplateFacts.objName_inj _ _ _ _ H2).
Qed.

Lemma shaped_nonempty (k : nat) (nm : string) :
  shaped k nm -> nm <> EmptyString.
Proof.
  intros [t [-> | ->]].
  - apply TemplateFacts.prepopName_nonempty.
  - apply TemplateFacts.objName_nonempty.
Qed.

(** The registry and the two selects as the script keeps them: the object
    at position [k] has reference [k] and a name made from [k], and both
    selects list the names in registration order. *)
Definition registry_ok (st : Scene.State) : Prop :=
  List.map obj (objects (app st))
    = seq 0 (List.length (objects (app st))) /\
  (forall k e, nth_error (objects (app st)) k = Some e ->
               shaped k (name e)) /\
  applyTextureSelect st = List.map name (objects (app st)) /\
  spinObjectsSelect st = List.map name (objects (app st)).

Lemma addObject_registry (mesh : Mesh.t) (nm : string) (st : Scene.State) :
  registry_ok st ->
  shaped (List.length (objects (app st))) nm ->
  registry_ok (addObject (newRef st) mesh nm st).
Proof.
  intros (Hrefs & Hnames & Hsel1 & Hsel2) Hnm.
  unfold registry_ok, addObject, newRef; simpl.
  rewrite !map_app, length_app, Nat.add_comm, seq_S; simpl.
  split; [rewrite Hrefs; reflexivity | split; [| split]].
  - intros k e Hk.
    destruct (Nat.lt_ge_cases k (List.length (objects (app st))))
      as [Hlt | Hge].
    + rewrite nth_error_app1 in Hk by exact Hlt. exact (Hnames k e Hk).
    + rewrite nth_error_app2 in Hk by exact Hge.
      destruct (k - List.length (objects (app st)))%nat as [| d] eqn:Hd.
      * simpl in Hk. injection Hk as <-. simpl.
        replace k with (List.length (objects (app st))) by lia.
        exact Hnm.
      * simpl in Hk. destruct d; discriminate Hk.
  - rewrite Hsel1. reflexivity.
  - rewrite Hsel2. reflexivity.
Qed.

(** What [prepopulateObjects] registers. *)
Lemma boot_objects (camera : Camera.t) (meshes0 : Store) (random : nat -> R) :
  objects (app (boot camera meshes0 random))
  = [mkEntry 0%nat "prepop1_box"; mkEntry 1%nat "prepop2_sphere";
     mkEntry 2%nat "prepop3_cone"; mkEntry 3%nat "prepop4_cylinder";
     mkEntry 4%nat "prepop5_plane"].
Proof. reflexivity. Qed.

Lemma boot_registry (camera : Camera.t) (meshes0 : Store)
      (random : nat -> R) :
  registry_ok (boot camera meshes0 random).
Proof.
  unfold registry_ok. rewrite boot_objects.
  split; [reflexivity | split; [| split; reflexivity]].
  intros k e Hk.
  do 5 (destruct k as [| k];
        [injection Hk as <-; eexists; left; reflexivity |]).
  destruct k; discriminate Hk.
Qed.

Section Page.

Variable offsetWidth : Z.

Lemma step_objects_kept (st : Scene.State) (ev : Scene.Event) :
  (forall type random1 random2, ev <> AddPrimitive type random1 random2) ->
  objects (app (step offsetWidth st ev)) = objects (app st) /\
  applyTextureSelect (step offsetWidth st ev) = applyTextureSelect st /\
  spinObjectsSelect (step offsetWidth st ev) = spinObjectsSelect st.
Proof.
  intros Hev. destruct ev as [type r1 r2 | t | nm | nm | ev | f | |]; simpl.
  - exfalso. apply (Hev type r1 r2). reflexivity.
  - repeat split.
  - unfold applyTextureBtn_click.
    destruct (String.eqb nm EmptyString); [repeat split |].
    destruct (loadedTexture st); [| repeat split].
    destruct (find _ _); repeat split.
  - repeat split.
  - repeat split.
  - unfold animate. destruct (hover _ _ _ _). repeat split.
  - unfold window_touchend.
    destruct (hoveredObject (app st)), (selectedObject (app st)); simpl;
      try destruct (Nat.eqb _ _); repeat split.
  - unfold window_click.
    destruct (hoveredObject (app st)), (selectedObject (app st)); simpl;
      try destruct (Nat.eqb _ _); repeat split.
Qed.

Lemma step_registry (st : Scene.State) (ev : Scene.Event) :
  registry_ok st -> registry_ok (step offsetWidth st ev).
Proof.
  intros Hok.
  assert (Hkept : (forall type random1 random2,
                      ev <> AddPrimitive type random1 random2) ->
                  registry_ok (step offsetWidth st ev)).
  { intros Hev. destruct (step_objects_kept st ev Hev) as (Ho & Hs1 & Hs2).
    unfold registry_ok. rewrite Ho, Hs1, Hs2. exact Hok. }
  destruct ev as [type r1 r2 | t | nm | nm | ev | f | |];
    try (apply Hkept; intros ? ? ?; discriminate).
  simpl. unfold addPrimitiveBtn_click, createPrimitive.
  apply addObject_registry; [exact Hok |].
  exists type. right. reflexivity.
Qed.

Lemma run_registry (evs : list Scene.Event) (st : Scene.State) :
  registry_ok st -> registry_ok (run offsetWidth evs st).
Proof.
  revert st. induction evs as [| ev evs IH]; intros st Hok.
  - exact Hok.
  - simpl. apply IH, step_registry, Hok.
Qed.

End Page.

Lemma registry_names_NoDup (st : Scene.State) :
  registry_ok st -> NoDup (List.map name (objects (app st))).
Proof.
  intros (_ & Hnames & _).
  apply NoDup_nth_error. intros i j Hi Hij.
  rewrite length_map in Hi.
  rewrite !nth_error_map in Hij.
  destruct (nth_error (objects (app st)) i) as [ei |] eqn:Hei.
  - destruct (nth_error (objects (app st)) j) as [ej |] eqn:Hej;
      [| discriminate Hij].
    simpl in Hij. injection Hij as Hij.
    apply (shaped_inj i j (name ei)).
    + exact (Hnames i ei Hei).
    + rewrite Hij. exact (Hnames j ej Hej).
  - apply nth_error_None in Hei. lia.
Qed.

(** With distinct names, looking an entry up by its name finds it. *)
Lemma find_by_name (objs : list Entry) (e : Entry) :
  NoDup (List.map name objs) -> In e objs ->
  find (fun o => String.eqb (name o) (name e)) objs = Some e.
Proof.
  induction objs as [| a objs IH]; intros Hnd Hin.
  - destruct Hin.
  - simpl in Hnd. inversion Hnd as [| ? ? Hnotin Hnd']; subst.
    simpl. destruct Hin as [-> | Hin].
    + rewrite String.eqb_refl. reflexivity.
    + destruct (String.eqb_spec (name a) (name e)) as [Heq | _].
      * exfalso. apply Hnotin. rewrite Heq. apply in_map. exact Hin.
      * apply IH; assumption.
Qed.

End RegistryFacts.

(** ** Highlights, object by object *)

Module HighlightFacts.
Import App Scene.

(** The hover highlight: the turquoise tint at intensity 0.6. *)
Definition hover_level (m : Material.t) : Prop :=
  Material.emissive m = Material.turquoise /\
  Material.emissiveIntensity m = 6 / 10.

Definition selected_level (m : Material.t) : Prop :=
  Material.emissive m = Material.turquoise /\
  Material.emissiveIntensity m = 1.

(** The highlight an object should carry: the selected one if it is the
    selection, else the hover one if it is hovered, else a black emissive
    colour. *)
Definition highlight_ok (hovered selected : option ObjRef) (o : ObjRef)
           (m : Material.t) : Prop :=
  if same_ref selected (Some o) then selected_level m
  else if same_ref hovered (Some o) then hover_level m
  else Material.emissive m = 0%Z.

Ltac by_refs :=
  repeat (match goal with
          | H : context [Nat.eqb ?a ?b] |- _ =>
              destruct (Nat.eqb_spec a b); subst
          | |- context [Nat.eqb ?a ?b] =>
              destruct (Nat.eqb_spec a b); subst
          end; simpl in * );
  try congruence; try tauto; try (split; reflexivity).

(** The hover block keeps the highlights right, object by object. *)
Lemma hover_highlight_ok (ints : list ObjRef) (hovered selected : option ObjRef)
      (meshes : Store) (o : ObjRef) :
  highlight_ok hovered selected o (Mesh.material (meshes o)) ->
  highlight_ok (snd (hover ints hovered selected meshes)) selected o
               (Mesh.material (fst (hover ints hovered selected meshes) o)).
Proof.
  unfold highlight_ok, hover, unhover, modify, hover_level, selected_level,
    Mesh.with_material.
  destruct ints as [| i rest], hovered as [h |], selected as [s |];
    simpl; intros H; by_refs.
Qed.

(** So does the tap listener. *)
Lemma touchend_highlight_ok (st : App.State) (o : ObjRef) :
  highlight_ok (hoveredObject st) (selectedObject st) o
               (Mesh.material (meshes st o)) ->
  highlight_ok (hoveredObject (window_touchend st))
               (selectedObject (window_touchend st)) o
               (Mesh.material (meshes (window_touchend st) o)).
Proof.
  unfold highlight_ok, window_touchend, modify, hover_level, selected_level,
    Mesh.with_material.
  destruct st as [cam joy objs spinning ms [h |] [s |]];
    simpl; intros H; by_refs.
Qed.

End HighlightFacts.

(** ** The page as a whole *)

Module PageFacts.
Import App Scene RegistryFacts HighlightFacts.

Lemma registered_lt (st : Scene.State) (o : ObjRef) :
  registry_ok st ->
  (In o (List.map obj (objects (app st)))
   <-> (o < List.length (objects (app st)))%nat).
Proof.
  intros (Hrefs & _). rewrite Hrefs, in_seq. lia.
Qed.

Lemma registered_named (st : Scene.State) (e : Entry) :
  registry_ok st -> In e (objects (app st)) -> name e <> EmptyString.
Proof.
  intros (_ & Hnames & _) Hin.
  apply In_nth_error in Hin as [k Hk].
  exact (shaped_nonempty k _ (Hnames k e Hk)).
Qed.

Lemma hover_target (ints : list ObjRef) (hovered selected : option ObjRef)
      (meshes : Store) :
  snd (hover ints hovered selected meshes) = hd_error ints.
Proof.
  unfold hover. destruct ints as [| i rest]; [reflexivity |].
  destruct (same_ref hovered (Some i)) eqn:Hsame.
  - apply SelectionFacts.same_ref_spec in Hsame. exact Hsame.
  - destruct (same_ref (Some i) selected); reflexivity.
Qed.

Lemma hover_placement (ints : list ObjRef) (hovered selected : option ObjRef)
      (meshes : Store) (o : ObjRef) :
  Mesh.position (fst (hover ints hovered selected meshes) o)
    = Mesh.position (meshes o) /\
  Mesh.rotation (fst (hover ints hovered selected meshes) o)
    = Mesh.rotation (meshes o).
Proof.
  unfold hover, unhover, modify, Mesh.with_material.
  destruct ints as [| i rest], hovered as [h |], selected as [s |];
    simpl; by_refs.
Qed.

Section Page.

Variable offsetWidth : Z.

Local Abbreviation step := (Scene.step offsetWidth).
Local Abbreviation run := (Scene.run offsetWidth).

(** *** The registry *)

(** X7. In every state of the page the registered names are pairwise
    distinct, each object is registered once, both selects list exactly
    the registered names in registration order, no name is empty, and
    looking any registered entry up by its name finds that entry. *)
Theorem registry_consistent
        (camera : Camera.t) (meshes0 : Store) (random : nat -> R)
        (evs : list Scene.Event) :
  NoDup (List.map name (objects (app (run evs (boot camera meshes0 random)))))
  /\ NoDup (List.map obj (objects (app (run evs (boot camera meshes0 random)))))
  /\ applyTextureSelect (run evs (boot camera meshes0 random))
     = List.map name (objects (app (run evs (boot camera meshes0 random))))
  /\ spinObjectsSelect (run evs (boot camera meshes0 random))
     = List.map name (objects (app (run evs (boot camera meshes0 random))))
  /\ forall e,
      In e (objects (app (run evs (boot camera meshes0 random)))) ->
      name e <> EmptyString /\
      find (fun o => String.eqb (name o) (name e))
           (objects (app (run evs (boot camera meshes0 random))))
      = Some e.
Proof.
  pose proof (run_registry offsetWidth evs _
                (boot_registry camera meshes0 random)) as Hok.
  set (st := run evs (boot camera meshes0 random)) in *.
  pose proof (registry_names_NoDup st Hok) as Hnd.
  destruct Hok as (Hrefs & Hnames & Hsel1 & Hsel2).
  split; [exact Hnd | split; [| split; [exact Hsel1 | split]]].
  - rewrite Hrefs. apply seq_NoDup.
  - exact Hsel2.
  - intros e Hin. split.
    + apply (registered_named st e); [| exact Hin].
      repeat split; assumption.
    + apply find_by_name; assumption.
Qed.

(** *** Highlights *)

(** Hovered and selected objects are registered, and every registered
    object carries the highlight it should. *)
Definition lit (st : Scene.State) : Prop :=
  (forall h, hoveredObject (app st) = Some h ->
             In h (List.map obj (objects (app st)))) /\
  (forall s, selectedObject (app st) = Some s ->
             In s (List.map obj (objects (app st)))) /\
  (forall o, In o (List.map obj (objects (app st))) ->
             highlight_ok (hoveredObject (app st)) (selectedObject (app st))
                          o (Mesh.material (meshes (app st) o))).

Lemma boot_meshes (camera : Camera.t) (meshes0 : Store) (random : nat -> R)
      (o : ObjRef) :
  (o < 5)%nat ->
  Mesh.material (meshes (app (boot camera meshes0 random)) o) = newMaterial.
Proof.
  intros Ho. do 5 (destruct o as [| o]; [reflexivity |]). lia.
Qed.

Lemma boot_lit (camera : Camera.t) (meshes0 : Store) (random : nat -> R) :
  lit (boot camera meshes0 random).
Proof.
  split; [discriminate | split; [discriminate |]].
  intros o Ho.
  apply (registered_lt _ o (boot_registry camera meshes0 random)) in Ho.
  rewrite boot_objects in Ho. simpl in Ho.
  rewrite boot_meshes by exact Ho. reflexivity.
Qed.

Lemma touchend_selected_registered (a : App.State) (P : ObjRef -> Prop) :
  (forall h, hoveredObject a = Some h -> P h) ->
  (forall s, selectedObject a = Some s -> P s) ->
  forall s, selectedObject (window_touchend a) = Some s -> P s.
Proof.
  destruct a as [cam joy objs spinning ms [h |] [s |]];
    unfold window_touchend; simpl; intros Hh Hs s';
    try destruct (Nat.eqb h s); simpl; intros [= <-]; auto.
Qed.

Lemma touchend_frame (a : App.State) :
  hoveredObject (window_touchend a) = hoveredObject a /\
  objects (window_touchend a) = objects a /\
  spinningObjects (window_touchend a) = spinningObjects a /\
  joystick (window_touchend a) = joystick a /\
  camera (window_touchend a) = camera a.
Proof.
  destruct a as [cam joy objs spinning ms [h |] [s |]];
    unfold window_touchend; simpl;
    try destruct (Nat.eqb h s); repeat split.
Qed.

Lemma tap_lit (st : Scene.State) : lit st -> lit (step st Tap).
Proof.
  intros (Hhov & Hsel & Hlit).
  destruct (touchend_frame (app st)) as (Hh & Ho & _).
  unfold lit. cbn [Scene.step with_app app]. rewrite Ho, Hh.
  split; [exact Hhov | split].
  - apply touchend_selected_registered; assumption.
  - intros o Hin. rewrite <- Hh. apply touchend_highlight_ok.
    exact (Hlit o Hin).
Qed.

Lemma step_lit (st : Scene.State) (ev : Scene.Event) :
  registry_ok st -> hits_registered st ev -> lit st -> lit (step st ev).
Proof.
  intros Hok Hhits (Hhov & Hsel & Hlit).
  destruct ev as [type r1 r2 | t | nm | nm | ev | f | |].
  - (* a new object *)
    assert (Hfresh : ~ In (newRef st) (List.map obj (objects (app st)))).
    { rewrite (registered_lt st _ Hok). unfold newRef. lia. }
    simpl. unfold addPrimitiveBtn_click, createPrimitive, addObject, lit.
    simpl. rewrite !map_app. simpl.
    split; [| split].
    + intros h Hh. apply in_or_app. left. exact (Hhov h Hh).
    + intros s Hs. apply in_or_app. left. exact (Hsel s Hs).
    + intros o Ho. apply in_app_or in Ho as [Ho | [<- | []]].
      * unfold modify.
        destruct (Nat.eqb_spec o (newRef st)) as [-> | _];
          [contradiction | exact (Hlit o Ho)].
      * unfold modify. rewrite Nat.eqb_refl. unfold highlight_ok.
        destruct (same_ref (selectedObject (app st)) (Some (newRef st)))
          eqn:Hs.
        { apply SelectionFacts.same_ref_spec in Hs.
          exfalso. exact (Hfresh (Hsel _ Hs)). }
        destruct (same_ref (hoveredObject (app st)) (Some (newRef st)))
          eqn:Hh.
        { apply SelectionFacts.same_ref_spec in Hh.
          exfalso. exact (Hfresh (Hhov _ Hh)). }
        reflexivity.
  - (* a texture arrives *)
    split; [exact Hhov | split; [exact Hsel | exact Hlit]].
  - (* a texture is applied *)
    simpl. unfold applyTextureBtn_click.
    destruct (String.eqb nm EmptyString);
      [split; [exact Hhov | split; [exact Hsel | exact Hlit]] |].
    destruct (loadedTexture st) as [t |];
      [| split; [exact Hhov | split; [exact Hsel | exact Hlit]]].
    destruct (find _ _) as [objectData |];
      [| split; [exact Hhov | split; [exact Hsel | exact Hlit]]].
    split; [exact Hhov | split; [exact Hsel |]].
    intros o Ho. simpl. specialize (Hlit o Ho). unfold modify.
    destruct (Nat.eqb_spec o (obj objectData)) as [-> | _]; exact Hlit.
  - (* spin toggled *)
    split; [exact Hhov | split; [exact Hsel | exact Hlit]].
  - (* joystick *)
    split; [exact Hhov | split; [exact Hsel | exact Hlit]].
  - (* a frame *)
    simpl in Hhits. unfold lit. simpl.
    assert (Hobjs : objects (animate f (app st)) = objects (app st)).
    { unfold animate. destruct (hover _ _ _ _). reflexivity. }
    rewrite Hobjs, SelectionFacts.animate_selected,
      SelectionFacts.animate_hovered, SelectionFacts.animate_meshes,
      hover_target.
    split; [| split; [exact Hsel |]].
    + intros h Hh. destruct (intersects f) as [| i rest];
        [discriminate Hh |].
      simpl in Hh. injection Hh as <-.
      inversion Hhits; assumption.
    + intros o Ho. rewrite <- (hover_target (intersects f)
                                 (hoveredObject (app st))
                                 (selectedObject (app st))
                                 (spin (delta f) (spinningObjects (app st))
                                       (meshes (app st)))).
      apply hover_highlight_ok.
      rewrite SpinFacts.spin_material. exact (Hlit o Ho).
  - (* a tap *)
    apply tap_lit. split; [exact Hhov | split; [exact Hsel | exact Hlit]].
  - (* a click: the listener is the same *)
    change (lit (step st Tap)).
    apply tap_lit. split; [exact Hhov | split; [exact Hsel | exact Hlit]].
Qed.

Lemma run_lit (evs : list Scene.Event) (st : Scene.State) :
  registry_ok st -> well_formed offsetWidth evs st -> lit st ->
  lit (run evs st).
Proof.
  revert st. induction evs as [| ev evs IH]; intros st Hok Hwf Hlit.
  - exact Hlit.
  - destruct Hwf as [Hhits Hwf]. simpl. apply IH.
    + apply step_registry, Hok.
    + exact Hwf.
    + apply step_lit; assumption.
Qed.

(** X4. Whatever happens on the page (objects added, textures loaded and
    applied, spin toggled, joystick touches, frames whose ray hits are
    registered objects, taps and clicks), every registered object carries
    exactly the highlight of its role: turquoise at intensity 1 if it is the
    selection; otherwise turquoise at intensity 0.6 if it is hovered;
    otherwise a black emissive colour.  No highlight is left behind. *)
Theorem highlights_match_roles
        (camera : Camera.t) (meshes0 : Store) (random : nat -> R)
        (evs : list Scene.Event) (e : Entry) :
  well_formed offsetWidth evs (boot camera meshes0 random) ->
  In e (objects (app (run evs (boot camera meshes0 random)))) ->
  let st := app (run evs (boot camera meshes0 random)) in
  let material := Mesh.material (meshes st (obj e)) in
  (selectedObject st = Some (obj e) ->
   Material.emissive material = Material.turquoise /\
   Material.emissiveIntensity material = 1) /\
  (selectedObject st <> Some (obj e) -> hoveredObject st = Some (obj e) ->
   Material.emissive material = Material.turquoise /\
   Material.emissiveIntensity material = 6 / 10) /\
  (selectedObject st <> Some (obj e) -> hoveredObject st <> Some (obj e) ->
   Material.emissive material = 0%Z).
Proof.
  intros Hwf Hin st material.
  destruct (run_lit evs _ (boot_registry camera meshes0 random) Hwf
                    (boot_lit camera meshes0 random)) as (_ & _ & Hlit).
  specialize (Hlit (obj e) (in_map obj _ e Hin)).
  fold st in Hlit. fold material in Hlit. unfold highlight_ok in Hlit.
  destruct (same_ref (selectedObject st) (Some (obj e))) eqn:Hs.
  - apply SelectionFacts.same_ref_spec in Hs.
    split; [intros _; exact Hlit | split; intros Hn; contradiction].
  - assert (Hns : selectedObject st <> Some (obj e)).
    { intros Heq. apply SelectionFacts.same_ref_spec in Heq. congruence. }
    destruct (same_ref (hoveredObject st) (Some (obj e))) eqn:Hh.
    + apply SelectionFacts.same_ref_spec in Hh.
      split; [intros Hc; contradiction | split].
      * intros _ _. exact Hlit.
      * intros _ Hn. contradiction.
    + assert (Hnh : hoveredObject st <> Some (obj e)).
      { intros Heq. apply SelectionFacts.same_ref_spec in Heq. congruence. }
      split; [intros Hc; contradiction | split].
      * intros _ Hc. contradiction.
      * intros _ _. exact Hlit.
Qed.

(** *** The camera *)

Lemma nonzero_origin : nonzero Joystick.origin = false.
Proof.
  unfold nonzero, Joystick.origin; simpl.
  destruct (Req_dec_T 0 0) as [_ | Hne]; [reflexivity | contradiction].
Qed.

Lemma step_idle (st : Scene.State) (ev : Scene.Event) :
  JoystickFacts.idle (joystick (app st)) ->
  JoystickFacts.idle (joystick (app (step st ev))).
Proof.
  intros Hidle.
  destruct ev as [type r1 r2 | t | nm | nm | ev | f | |].
  - exact Hidle.
  - exact Hidle.
  - simpl. unfold applyTextureBtn_click.
    destruct (String.eqb nm EmptyString); [exact Hidle |].
    destruct (loadedTexture st); [| exact Hidle].
    destruct (find _ _); exact Hidle.
  - exact Hidle.
  - simpl. apply JoystickFacts.dispatch_idle. exact Hidle.
  - simpl. unfold animate. destruct (hover _ _ _ _). exact Hidle.
  - simpl. destruct (touchend_frame (app st)) as (_ & _ & _ & Hj & _).
    rewrite Hj. exact Hidle.
  - change (JoystickFacts.idle (joystick (app (step st Tap)))).
    simpl. destruct (touchend_frame (app st)) as (_ & _ & _ & Hj & _).
    rewrite Hj. exact Hidle.
Qed.

(** What an event does to the camera when the joystick is idle. *)
Definition camera_by_controls (camera : Camera.t) (ev : Scene.Event)
  : Camera.t :=
  match ev with
  | Frame f => controls_update f camera
  | _ => camera
  end.

Lemma step_camera (st : Scene.State) (ev : Scene.Event) :
  JoystickFacts.idle (joystick (app st)) ->
  camera (app (step st ev)) = camera_by_controls (camera (app st)) ev.
Proof.
  intros [_ Hvec].
  destruct ev as [type r1 r2 | t | nm | nm | ev | f | |].
  - reflexivity.
  - reflexivity.
  - simpl. unfold applyTextureBtn_click.
    destruct (String.eqb nm EmptyString); [reflexivity |].
    destruct (loadedTexture st); [| reflexivity].
    destruct (find _ _); reflexivity.
  - reflexivity.
  - reflexivity.
  - simpl. rewrite MovementFacts.animate_camera, Hvec.
    unfold joystickMovement. rewrite nonzero_origin. reflexivity.
  - simpl. destruct (touchend_frame (app st)) as (_ & _ & _ & _ & Hc).
    exact Hc.
  - change (camera (app (step st Tap)) = camera (app st)).
    simpl. destruct (touchend_frame (app st)) as (_ & _ & _ & _ & Hc).
    exact Hc.
Qed.

Lemma run_camera (evs : list Scene.Event) (st : Scene.State) :
  JoystickFacts.idle (joystick (app st)) ->
  camera (app (run evs st))
  = fold_left camera_by_controls evs (camera (app st)).
Proof.
  revert st. induction evs as [| ev evs IH]; intros st Hidle.
  - reflexivity.
  - simpl. rewrite IH by (apply step_idle; exact Hidle).
    rewrite step_camera by exact Hidle. reflexivity.
Qed.

(** X6. On the running page the joystick never moves the camera: after
    any events the camera is what the orbit controls' updates of the frames
    made of the starting camera, whatever touches the joystick received
    (no pointer ever becomes active, so the movement block never runs). *)
Theorem camera_moved_by_controls_only
        (camera0 : Camera.t) (meshes0 : Store) (random : nat -> R)
        (evs : list Scene.Event) :
  camera (app (run evs (boot camera0 meshes0 random)))
  = fold_left camera_by_controls evs camera0.
Proof.
  apply (run_camera evs (boot camera0 meshes0 random)).
  split; reflexivity.
Qed.

(** *** Spinning objects *)

Definition spin_ok (st : Scene.State) : Prop :=
  NoDup (spinningObjects (app st)) /\
  (forall o, In o (spinningObjects (app st)) ->
             In o (List.map obj (objects (app st)))).

Lemma toggleSpin_registered (nm : string) (objs : list Entry)
      (spinning : RefSet.t) (o : ObjRef) :
  In o (toggleSpin nm objs spinning) ->
  In o spinning \/ In o (List.map obj objs).
Proof.
  unfold toggleSpin.
  destruct (String.eqb nm EmptyString); [auto |].
  destruct (find _ objs) as [objData |] eqn:Hfind; [| auto].
  apply find_some in Hfind as [Hin _].
  unfold toggle, RefSet.add, RefSet.delete.
  destruct (RefSet.has spinning (obj objData)).
  - intros Ho. apply filter_In in Ho as [Ho _]. left. exact Ho.
  - intros Ho. apply in_app_or in Ho as [Ho | [<- | []]].
    + left. exact Ho.
    + right. apply in_map. exact Hin.
Qed.

Lemma step_spin_ok (st : Scene.State) (ev : Scene.Event) :
  spin_ok st -> spin_ok (step st ev).
Proof.
  intros [Hnd Hreg].
  destruct ev as [type r1 r2 | t | nm | nm | ev | f | |].
  - split; [exact Hnd |]. intros o Ho. simpl.
    unfold addPrimitiveBtn_click, createPrimitive, addObject. simpl.
    rewrite map_app. apply in_or_app. left. exact (Hreg o Ho).
  - split; assumption.
  - simpl. unfold applyTextureBtn_click.
    destruct (String.eqb nm EmptyString); [split; assumption |].
    destruct (loadedTexture st); [| split; assumption].
    destruct (find _ _); split; assumption.
  - split; simpl.
    + apply SpinFacts.toggleSpin_NoDup. exact Hnd.
    + intros o Ho. apply toggleSpin_registered in Ho as [Ho | Ho].
      * exact (Hreg o Ho).
      * exact Ho.
  - split; assumption.
  - unfold spin_ok. simpl. unfold animate. destruct (hover _ _ _ _).
    simpl. split; assumption.
  - unfold spin_ok. simpl.
    destruct (touchend_frame (app st)) as (_ & Ho & Hs & _).
    rewrite Ho, Hs. split; assumption.
  - change (spin_ok (step st Tap)). unfold spin_ok. simpl.
    destruct (touchend_frame (app st)) as (_ & Ho & Hs & _).
    rewrite Ho, Hs. split; assumption.
Qed.

Lemma run_spin_ok (evs : list Scene.Event) (st : Scene.State) :
  spin_ok st -> spin_ok (run evs st).
Proof.
  revert st. induction evs as [| ev evs IH]; intros st Hok.
  - exact Hok.
  - simpl. apply IH, step_spin_ok, Hok.
Qed.

(** The spin block keeps positions and the x and z rotations. *)
Lemma spin_placement (delta : R) (spinning : RefSet.t) (meshes : Store)
      (o : ObjRef) :
  Mesh.position (spin delta spinning meshes o) = Mesh.position (meshes o) /\
  Vector3.x (Mesh.rotation (spin delta spinning meshes o))
    = Vector3.x (Mesh.rotation (meshes o)) /\
  Vector3.z (Mesh.rotation (spin delta spinning meshes o))
    = Vector3.z (Mesh.rotation (meshes o)).
Proof.
  revert meshes. induction spinning as [| a s IH]; intros meshes.
  - repeat split.
  - rewrite SpinFacts.spin_cons.
    destruct (IH (modify (Mesh.rotate_y (delta * (2 / 10))) a meshes))
      as (Hp & Hx & Hz).
    rewrite Hp, Hx, Hz. unfold modify.
    destruct (Nat.eqb_spec o a) as [-> | _]; repeat split.
Qed.

(** X10. On the running page a frame turns every spinning object by
    exactly [delta * 0.2] about y (once, never twice), leaves the y
    rotation of every other object alone, and changes no position and no x
    or z rotation; and only registered objects ever spin. *)
Theorem frame_spins_each_once
        (camera : Camera.t) (meshes0 : Store) (random : nat -> R)
        (evs : list Scene.Event) (f : App.Frame) (o : ObjRef) :
  let st := app (run evs (boot camera meshes0 random)) in
  let st' := animate f st in
  Vector3.y (Mesh.rotation (meshes st' o))
    = Vector3.y (Mesh.rotation (meshes st o))
      + (if RefSet.has (spinningObjects st) o then delta f * (2 / 10) else 0)
  /\ Vector3.x (Mesh.rotation (meshes st' o))
     = Vector3.x (Mesh.rotation (meshes st o))
  /\ Vector3.z (Mesh.rotation (meshes st' o))
     = Vector3.z (Mesh.rotation (meshes st o))
  /\ Mesh.position (meshes st' o) = Mesh.position (meshes st o)
  /\ (RefSet.has (spinningObjects st) o = true ->
      In o (List.map obj (objects st))).
Proof.
  intros st st'.
  assert (Hok : spin_ok (run evs (boot camera meshes0 random))).
  { apply run_spin_ok. split; [constructor | intros ? []]. }
  destruct Hok as [Hnd Hreg]. fold st in Hnd, Hreg.
  unfold st'. rewrite SelectionFacts.animate_meshes.
  destruct (hover_placement (intersects f) (hoveredObject st)
              (selectedObject st)
              (spin (delta f) (spinningObjects st) (meshes st)) o)
    as [Hpos Hrot].
  rewrite Hpos, Hrot.
  destruct (spin_placement (delta f) (spinningObjects st) (meshes st) o)
    as (Hp & Hx & Hz).
  split; [| split; [exact Hx | split; [exact Hz | split; [exact Hp |]]]].
  - destruct (RefSet.has (spinningObjects st) o) eqn:Hhas.
    + apply SpinFacts.spin_rotates; [exact Hnd |].
      apply SpinFacts.has_In. exact Hhas.
    + rewrite SpinFacts.spin_outside by exact Hhas. ring.
  - intros Hhas. apply Hreg, SpinFacts.has_In. exact Hhas.
Qed.

(** X11. On the running page, toggling spin with a registered object's
    name chosen flips the membership of that very object in the spinning
    set and of no other. *)
Theorem toggle_by_name_flips_that_object
        (camera : Camera.t) (meshes0 : Store) (random : nat -> R)
        (evs : list Scene.Event) (e : Entry) (o : ObjRef) :
  In e (objects (app (run evs (boot camera meshes0 random)))) ->
  let st := run evs (boot camera meshes0 random) in
  RefSet.has (spinningObjects (app (step st (ToggleSpin (name e))))) o
  = if Nat.eqb o (obj e)
    then negb (RefSet.has (spinningObjects (app st)) (obj e))
    else RefSet.has (spinningObjects (app st)) o.
Proof.
  intros Hin st.
  pose proof (run_registry offsetWidth evs _
                (boot_registry camera meshes0 random)) as Hok.
  fold st in Hok, Hin.
  simpl. unfold toggleSpin.
  destruct (String.eqb_spec (name e) EmptyString) as [Hempty | _].
  - exfalso. exact (registered_named st e Hok Hin Hempty).
  - rewrite (find_by_name _ e (registry_names_NoDup st Hok) Hin).
    apply SpinFacts.has_toggle.
Qed.

(** *** Textures *)



(** *** New primitives *)

(** X9. [createPrimitive] makes a cone or a cylinder for these two types
    and rests it at height 2; it rests every other primitive at height
    1.5, and a type it does not know gives the box.  With the two random
    numbers in [0, 1) the primitive lies in the square from -15 to 15 in x
    and z.  It is not rotated and carries no highlight and no texture. *)
Theorem createPrimitive_placement (type : string) (random1 random2 : R) :
  0 <= random1 < 1 -> 0 <= random2 < 1 ->
  let mesh := snd (createPrimitive type random1 random2) in
  -15 <= Vector3.x (Mesh.position mesh) < 15 /\
  -15 <= Vector3.z (Mesh.position mesh) < 15 /\
  Vector3.y (Mesh.position mesh)
    = (if (String.eqb type "cone" || String.eqb type "cylinder")%bool
       then 2 else 15 / 10) /\
  Mesh.rotation mesh = Vector3.mk 0 0 0 /\
  Mesh.material mesh = Material.mk 0 1 None /\
  (type <> "box"%string -> type <> "sphere"%string ->
   type <> "cone"%string -> type <> "cylinder"%string ->
   type <> "plane"%string ->
   createPrimitive type random1 random2
   = createPrimitive "box" random1 random2).
Proof.
  intros H1 H2 mesh. unfold mesh, createPrimitive. simpl.
  split; [lra | split; [lra | split; [| split; [| split]]]];
    try reflexivity.
  - unfold geometryFor, restingHeight.
    destruct (String.eqb_spec type "box") as [-> | _];
      [| destruct (String.eqb_spec type "sphere") as [-> | _];
         [| destruct (String.eqb_spec type "cone") as [-> | _];
            [| destruct (String.eqb_spec type "cylinder") as [-> | _];
               [| destruct (String.eqb_spec type "plane") as [-> | _]]]]];
      simpl;
      repeat match goal with
             | |- context [Req_dec_T ?a ?b] => destruct (Req_dec_T a b)
             end;
      lra.
  - intros Hb Hs Hc Hy Hp. unfold geometryFor.
    apply String.eqb_neq in Hb, Hs, Hc, Hy, Hp.
    rewrite Hb, Hs, Hc, Hy, Hp. reflexivity.
Qed.


End Page.

End PageFacts.

(** ** The geometry of the joystick movement *)

Module MovementGeometry.
Import App.

(** The direction to the viewer's right: forward crossed with up (the
    scene's coordinates are right-handed), at unit length. *)
Definition viewerRight (camera : Camera.t) : Vector3.t :=
  MovementSpec.unit
    (MovementSpec.cross (MovementSpec.forward camera) (Camera.up camera)).

Lemma length_opp (v : Vector3.t) :
  Vector3.length (MovementSpec.scale (-1) v) = Vector3.length v.
Proof.
  unfold Vector3.length, MovementSpec.scale; simpl. f_equal. ring.
Qed.

Lemma unit_opp (v : Vector3.t) :
  MovementSpec.unit (MovementSpec.scale (-1) v)
  = MovementSpec.scale (-1) (MovementSpec.unit v).
Proof.
  unfold MovementSpec.unit. rewrite length_opp.
  destruct (Req_dec_T (Vector3.length v) 0) as [_ | Hne]; [reflexivity |].
  unfold MovementSpec.scale; simpl. f_equal; ring.
Qed.

Lemma cross_swap (a b : Vector3.t) :
  MovementSpec.cross a b = MovementSpec.scale (-1) (MovementSpec.cross b a).
Proof. unfold MovementSpec.cross, MovementSpec.scale; simpl. f_equal; ring. Qed.

Lemma right_is_opposite (camera : Camera.t) :
  MovementSpec.right camera = MovementSpec.scale (-1) (viewerRight camera).
Proof.
  unfold MovementSpec.right, viewerRight.
  rewrite cross_swap. apply unit_opp.
Qed.

(** X3. For every camera and direction vector, the sideways part of the
    joystick movement goes against the viewer's right (forward crossed with
    up): in x and z the camera moves by [-y * 0.15] along forward and by
    [-(x * 0.15)] along the viewer's right, so pushing the stick to the
    right moves the camera to the left. *)
Theorem sideways_movement_is_mirrored
        (v : Joystick.Point) (camera : Camera.t) :
  Vector3.x (Camera.position (moveCamera v camera))
    = Vector3.x (Camera.position camera)
      + - Joystick.py v * (15 / 100) * Vector3.x (MovementSpec.forward camera)
      - Joystick.px v * (15 / 100) * Vector3.x (viewerRight camera) /\
  Vector3.z (Camera.position (moveCamera v camera))
    = Vector3.z (Camera.position camera)
      + - Joystick.py v * (15 / 100) * Vector3.z (MovementSpec.forward camera)
      - Joystick.px v * (15 / 100) * Vector3.z (viewerRight camera).
Proof.
  rewrite MovementFacts.moveCamera_spec.
  unfold MovementSpec.applyMovement. rewrite right_is_opposite.
  unfold MovementSpec.clampHeight, MovementSpec.add, MovementSpec.scale,
    moveSpeed; simpl.
  split; ring.
Qed.

(** A rescaled vector has length 1, unless it is the zero vector. *)
Lemma unit_sqr (v : Vector3.t) :
  Vector3.length v <> 0 ->
  Vector3.x (MovementSpec.unit v) * Vector3.x (MovementSpec.unit v)
  + Vector3.y (MovementSpec.unit v) * Vector3.y (MovementSpec.unit v)
  + Vector3.z (MovementSpec.unit v) * Vector3.z (MovementSpec.unit v) = 1.
Proof.
  intros Hlen. unfold MovementSpec.unit.
  destruct (Req_dec_T (Vector3.length v) 0) as [Heq | _]; [contradiction |].
  assert (Hsq : Vector3.length v * Vector3.length v
                = Vector3.x v * Vector3.x v + Vector3.y v * Vector3.y v
                  + Vector3.z v * Vector3.z v).
  { unfold Vector3.length. apply sqrt_sqrt. nra. }
  unfold MovementSpec.scale; simpl.
  transitivity ((Vector3.x v * Vector3.x v + Vector3.y v * Vector3.y v
                 + Vector3.z v * Vector3.z v)
                / (Vector3.length v * Vector3.length v)).
  - field. exact Hlen.
  - rewrite <- Hsq. field. exact Hlen.
Qed.

Lemma length_zero_iff (v : Vector3.t) :
  Vector3.length v = 0
  <-> Vector3.x v = 0 /\ Vector3.y v = 0 /\ Vector3.z v = 0.
Proof.
  unfold Vector3.length. split.
  - intros H. apply sqrt_eq_0 in H; [| nra]. nra.
  - intros (-> & -> & ->).
    replace (0 * 0 + 0 * 0 + 0 * 0) with 0 by ring. apply sqrt_0.
Qed.

(** X5. With the camera's up at (0, 1, 0): the joystick movement shifts
    the camera horizontally by exactly [0.15] times the length of the
    direction vector when the view is not vertical, and not at all when the
    camera looks straight up or down; the height only changes by the clamp
    to the floor. *)
Theorem movement_speed
        (v : Joystick.Point) (camera : Camera.t) :
  Camera.up camera = Vector3.mk 0 1 0 ->
  let dx := Vector3.x (Camera.position (moveCamera v camera))
            - Vector3.x (Camera.position camera) in
  let dz := Vector3.z (Camera.position (moveCamera v camera))
            - Vector3.z (Camera.position camera) in
  Vector3.y (Camera.position (moveCamera v camera))
    = Rmax (Vector3.y (Camera.position camera)) (12 / 10) /\
  (Vector3.x (Camera.direction camera) <> 0
   \/ Vector3.z (Camera.direction camera) <> 0 ->
   sqrt (dx * dx + dz * dz) = 15 / 100 * Joystick.magnitude v) /\
  (Vector3.x (Camera.direction camera) = 0 ->
   Vector3.z (Camera.direction camera) = 0 ->
   dx = 0 /\ dz = 0).
Proof.
  intros Hup dx dz. unfold dx, dz.
  rewrite MovementFacts.moveCamera_spec.
  unfold MovementSpec.applyMovement, MovementSpec.right.
  set (flat := Vector3.mk (Vector3.x (Camera.direction camera)) 0
                          (Vector3.z (Camera.direction camera))).
  assert (Hfwd : MovementSpec.forward camera = MovementSpec.unit flat)
    by reflexivity.
  assert (Hfy : Vector3.y (MovementSpec.unit flat) = 0).
  { unfold MovementSpec.unit.
    destruct (Req_dec_T (Vector3.length flat) 0); simpl; [reflexivity |].
    ring. }
  rewrite Hfwd, Hup.
  set (fwd := MovementSpec.unit flat) in *.
  assert (Hcross : MovementSpec.cross (Vector3.mk 0 1 0) fwd
                   = Vector3.mk (Vector3.z fwd) 0 (- Vector3.x fwd)).
  { unfold MovementSpec.cross; simpl. rewrite Hfy. f_equal; ring. }
  rewrite Hcross.
  set (side := Vector3.mk (Vector3.z fwd) 0 (- Vector3.x fwd)).
  destruct (Req_dec_T (Vector3.length flat) 0) as [Hzero | Hnz].
  - (* vertical view: forward and right are zero *)
    assert (Hf0 : fwd = flat).
    { unfold fwd, MovementSpec.unit.
      destruct (Req_dec_T (Vector3.length flat) 0); [reflexivity |].
      contradiction. }
    apply length_zero_iff in Hzero as (Hx & _ & Hz). simpl in Hx, Hz.
    assert (Hs0 : MovementSpec.unit side = side).
    { unfold MovementSpec.unit.
      destruct (Req_dec_T (Vector3.length side) 0) as [_ | Hne];
        [reflexivity |].
      exfalso. apply Hne. apply length_zero_iff. unfold side. simpl.
      rewrite Hf0. unfold flat; simpl. rewrite Hx, Hz.
      repeat split; ring. }
    rewrite Hs0. unfold side. rewrite Hf0. unfold flat.
    unfold MovementSpec.clampHeight, MovementSpec.add, MovementSpec.scale.
    simpl. rewrite Hx, Hz.
    split; [f_equal; ring | split].
    + intros [Hc | Hc]; contradiction.
    + intros _ _. split; ring.
  - (* forward and right are orthogonal unit vectors *)
    pose proof (unit_sqr flat Hnz) as Hunit. fold fwd in Hunit.
    rewrite Hfy in Hunit.
    assert (Hs1 : MovementSpec.unit side = side).
    { assert (Hlen : Vector3.length side = 1).
      { unfold Vector3.length, side; simpl.
        replace (Vector3.z fwd * Vector3.z fwd + 0 * 0
                 + - Vector3.x fwd * - Vector3.x fwd) with 1 by lra.
        apply sqrt_1. }
      unfold MovementSpec.unit. rewrite Hlen.
      destruct (Req_dec_T 1 0) as [Habs | _]; [lra |].
      unfold MovementSpec.scale, side; simpl. f_equal; field. }
    rewrite Hs1. unfold side.
    unfold MovementSpec.clampHeight, MovementSpec.add, MovementSpec.scale.
    simpl. rewrite Hfy.
    split; [f_equal; ring | split].
    + intros _. unfold Joystick.magnitude.
      apply sqrt_lem_1.
      * nra.
      * apply Rmult_le_pos; [lra | apply sqrt_pos].
      * assert (Hm : sqrt (Joystick.px v * Joystick.px v
                           + Joystick.py v * Joystick.py v)
                     * sqrt (Joystick.px v * Joystick.px v
                             + Joystick.py v * Joystick.py v)
                     = Joystick.px v * Joystick.px v
                       + Joystick.py v * Joystick.py v)
          by (apply sqrt_sqrt; nra).
        unfold moveSpeed. nra.
    + intros Hx Hz. exfalso. apply Hnz. apply length_zero_iff.
      unfold flat; simpl. auto.
Qed.

End MovementGeometry.

(** ** More on the joystick handlers *)

Module JoystickMore.
Import Joystick.

Section Handlers.

Variable offsetWidth : Z.

Local Abbreviation maxDistance := (joystickRadius offsetWidth).

(** X14. Touches that are not the active pointer change nothing: when no
    changed touch carries the active identifier (in particular when no
    pointer is active), the [touchmove] and [touchend] listeners leave all
    joystick variables as they were. *)
Theorem other_touches_ignored (touches : list Touch) (st : State) :
  (forall t, In t touches -> joystickPointerId st <> Some (identifier t)) ->
  touchmove offsetWidth touches st = st /\ touchend touches st = st.
Proof.
  intros Hother. split.
  - unfold touchmove. destruct (joystickPointerId st) as [id |] eqn:Hid;
      [| reflexivity].
    induction touches as [| t rest IH]; simpl; [reflexivity |].
    destruct (Z.eqb_spec (identifier t) id) as [Heq | _].
    + exfalso. apply (Hother t); [left; reflexivity |]. congruence.
    + apply IH. intros t' Hin. apply Hother. right. exact Hin.
  - induction touches as [| t rest IH]; simpl; [reflexivity |].
    unfold is_active.
    destruct (joystickPointerId st) as [id |] eqn:Hid.
    + destruct (Z.eqb_spec (identifier t) id) as [Heq | _].
      * exfalso. apply (Hother t); [left; reflexivity |]. congruence.
      * apply IH. intros t' Hin. apply Hother. right. exact Hin.
    + apply IH. intros t' Hin. apply Hother. right. exact Hin.
Qed.

(** X15. A handled move keeps the knob on the base: with a positive
    radius and the pointer active, after [touchmove] the stored offset is
    at most the radius long, it is the raw offset itself when that is
    within the radius, the knob is drawn at the stored offset, and the
    direction vector times the radius is the stored offset. *)
Theorem touchmove_keeps_knob_on_base
        (st : State) (id : Z) (touches : list Touch) (touch : Touch) :
  (0 < offsetWidth)%Z ->
  joystickPointerId st = Some id ->
  find (fun t => Z.eqb (identifier t) id) touches = Some touch ->
  let deltaX := clientX touch - px (joystickCenter st) in
  let deltaY := clientY touch - py (joystickCenter st) in
  let st' := touchmove offsetWidth touches st in
  magnitude (joystickPos st') <= maxDistance /\
  (sqrt (deltaX * deltaX + deltaY * deltaY) <= maxDistance ->
   joystickPos st' = mkPoint deltaX deltaY) /\
  stickTransform st' = Some (joystickPos st') /\
  px (joystickVector st') * maxDistance = px (joystickPos st') /\
  py (joystickVector st') * maxDistance = py (joystickPos st') /\
  joystickPointerId st' = Some id /\
  joystickCenter st' = joystickCenter st.
Proof.
  intros Hw Hid Hfind deltaX deltaY st'.
  pose proof (JoystickFacts.radius_pos offsetWidth Hw) as HR.
  assert (Est : st' = touchmove_body offsetWidth touch st).
  { unfold st', touchmove.
    rewrite Hid, JoystickFacts.touchmove_loop_find, Hfind. reflexivity. }
  rewrite Est.
  set (distance := sqrt (deltaX * deltaX + deltaY * deltaY)).
  assert (Hdd : distance * distance = deltaX * deltaX + deltaY * deltaY)
    by apply JSMathFacts.hypot_sqr.
  assert (Hd0 : 0 <= distance) by apply sqrt_pos.
  split; [| split; [| split; [| split; [| split; [| split]]]]].
  - destruct (Rlt_dec maxDistance distance) as [Hfar | Hnear].
    + rewrite (JoystickFacts.touchmove_body_clamped offsetWidth touch st
                 HR Hfar).
      fold deltaX deltaY distance. unfold magnitude; simpl.
      apply Req_le, sqrt_lem_1; [nra | lra |].
      transitivity
        (maxDistance / distance * (maxDistance / distance)
         * (deltaX * deltaX + deltaY * deltaY)); [| ring].
      rewrite <- Hdd. field. lra.
    + unfold touchmove_body. fold deltaX deltaY. fold distance.
      destruct (Rlt_dec maxDistance distance); [contradiction |].
      unfold magnitude; simpl. fold distance. lra.
  - intros Hnear. unfold touchmove_body. fold deltaX deltaY. fold distance.
    destruct (Rlt_dec maxDistance distance); [lra | reflexivity].
  - reflexivity.
  - simpl. field. lra.
  - simpl. field. lra.
  - simpl. exact Hid.
  - reflexivity.
Qed.

End Handlers.

End JoystickMore.

(** ** The torus *)

Module TorusFacts.
Import Torus.



Lemma blend_bounds (zz : R) :
  - (2 * tube) <= zz <= 2 * tube ->
  5 / 10 <= blend zz <= 15 / 10.
Proof.
  unfold blend, tube. intros [Hlo Hhi].
  destruct (Rlt_dec 0 zz) as [Hpos | Hneg].
  - lra.
  - rewrite Rabs_left1 by lra. lra.
Qed.

(** X17. Every generated data point, for random numbers in [0, 1): each
    coordinate is within the tube radius 10 of the torus point, the point
    lies in the box of 70 by 70 by 20 around the origin, its value is the
    fourth random number, and its colour is the blend of purple and
    turquoise (above the plane z = 0) or of turquoise and green (on or
    below it) with a factor between 0.5 and 1.5. *)
Theorem generate_bounds (i : nat) (random1 random2 random3 random4 : R) :
  0 <= random1 < 1 -> 0 <= random2 < 1 -> 0 <= random3 < 1 ->
  let p0 := getPointOnTorus radius tube DATA_POINTS_COUNT
                            DATA_POINTS_COUNT (INR i) in
  let d := generate i random1 random2 random3 random4 in
  Rabs (x (point d) - x p0) <= 10 /\
  Rabs (y (point d) - y p0) <= 10 /\
  Rabs (z (point d) - z p0) <= 10 /\
  Rabs (x (point d)) <= 70 /\ Rabs (y (point d)) <= 70 /\
  Rabs (z (point d)) <= 20 /\
  value d = random4 /\
  5 / 10 <= blend (z (point d)) <= 15 / 10 /\
  color d = (if Rlt_dec 0 (z (point d))
             then lerpColors color1 color2 (blend (z (point d)))
             else lerpColors color2 color3 (blend (z (point d)))).
Proof.
  intros H1 H2 H3 p0 d. unfold d, p0, generate, getPointOnTorus.
  cbn [point value color x y z].
  set (a := INR i / DATA_POINTS_COUNT * PI * 2).
  pose proof (COS_bound a) as [Hc1 Hc2].
  pose proof (SIN_bound a) as [Hs1 Hs2].
  unfold radius, tube in *.
  assert (Hx : -60 <= (50 + 10 * cos a) * cos a <= 60) by nra.
  assert (Hy : -60 <= (50 + 10 * cos a) * sin a <= 60) by nra.
  assert (Hz : - (2 * 10) <= 10 * sin a + (random3 - 5 / 10) * 10 * 2
               <= 2 * 10) by lra.
  split; [apply Rabs_le; lra |].
  split; [apply Rabs_le; lra |].
  split; [apply Rabs_le; lra |].
  split; [apply Rabs_le; lra |].
  split; [apply Rabs_le; lra |].
  split; [apply Rabs_le; lra |].
  split; [reflexivity |].
  split; [exact (blend_bounds _ Hz) |].
  unfold blend, tube.
  destruct (Rlt_dec 0 (10 * sin a + (random3 - 5 / 10) * 10 * 2));
    reflexivity.
Qed.

End TorusFacts.

(** ** A session on the page *)

Module PageExamples.
Import App Scene.

(** The page as it starts, with the example camera. *)
Definition page : Scene.State :=
  boot MovementFacts.camera0 (fun _ => SceneExamples.plain) (fun _ => 0).

(** The registered sphere. *)
Definition sphere_entry : Entry := mkEntry 1%nat "prepop2_sphere".

(** The ray hits the sphere; a tap selects it; a cone is added and then
    looked at. *)
Definition session : list Scene.Event :=
  [Frame (SceneExamples.looking_at 1%nat); Tap;
   AddPrimitive "cone" 0 0; Frame (SceneExamples.looking_at 5%nat)].

Lemma session_well_formed : well_formed 100 session page.
Proof.
  lazy. repeat split; (apply Forall_cons; [auto 10 | apply Forall_nil]).
Qed.

Lemma highlights_match_roles_witness :
  Material.emissiveIntensity
    (Mesh.material (meshes (app (run 100 session page)) 1%nat)) = 1.
Proof.
  refine (proj2 (proj1 (PageFacts.highlights_match_roles
                          100 MovementFacts.camera0
                          (fun _ => SceneExamples.plain) (fun _ => 0)
                          session sphere_entry session_well_formed _)
                       eq_refl)).
  lazy. auto 10.
Defined.

Lemma toggle_by_name_flips_that_object_witness :
  RefSet.has
    (spinningObjects
       (app (step 100 (run 100 session page)
                  (ToggleSpin (name sphere_entry))))) 1%nat
  = if Nat.eqb 1 (obj sphere_entry)
    then negb (RefSet.has (spinningObjects (app (run 100 session page)))
                          (obj sphere_entry))
    else RefSet.has (spinningObjects (app (run 100 session page))) 1%nat.
Proof.
  assert (Hin : In sphere_entry (objects (app (run 100 session page))))
    by (lazy; auto 10).
  exact (PageFacts.toggle_by_name_flips_that_object
           100 MovementFacts.camera0 (fun _ => SceneExamples.plain)
           (fun _ => 0) session sphere_entry 1%nat Hin).
Defined.



Lemma createPrimitive_placement_witness :
  Vector3.y (Mesh.position (snd (createPrimitive "cone" (1 / 2) 0))) = 2.
Proof.
  refine (proj1 (proj2 (proj2 (PageFacts.createPrimitive_placement
                                 "cone" (1 / 2) 0 _ _))));
    lra.
Defined.

Lemma movement_speed_witness :
  Vector3.y (Camera.position
               (moveCamera (Joystick.mkPoint 1 0) MovementFacts.camera0))
  = Rmax 15 (12 / 10).
Proof.
  refine (proj1 (MovementGeometry.movement_speed
                   (Joystick.mkPoint 1 0) MovementFacts.camera0 _)).
  reflexivity.
Defined.

Lemma other_touches_ignored_witness :
  Joystick.touchmove 100 [Joystick.mkTouch 3 10 10] JoystickExamples.active
  = JoystickExamples.active.
Proof.
  refine (proj1 (JoystickMore.other_touches_ignored
                   100 [Joystick.mkTouch 3 10 10] JoystickExamples.active
                   _)).
  intros t [<- | []]. simpl. discriminate.
Defined.

Lemma touchmove_keeps_knob_on_base_witness :
  Joystick.magnitude
    (Joystick.joystickPos
       (Joystick.touchmove 100 [JoystickExamples.far_touch]
                           JoystickExamples.active))
  <= Joystick.joystickRadius 100.
Proof.
  refine (proj1 (JoystickMore.touchmove_keeps_knob_on_base
                   100 JoystickExamples.active 0
                   [JoystickExamples.far_touch] JoystickExamples.far_touch
                   _ eq_refl eq_refl)).
  reflexivity.
Defined.


Lemma generate_bounds_witness :
  Rabs (Torus.z (Torus.point
                   (Torus.generate 7 (1 / 2) (1 / 2) (1 / 4) (3 / 4))))
  <= 20.
Proof.
  refine (proj1 (proj2 (proj2 (proj2 (proj2 (proj2
            (TorusFacts.generate_bounds 7 (1 / 2) (1 / 2) (1 / 4) (3 / 4)
                                        _ _ _)))))));
    lra.
Defined.

End PageExamples.
